(** * vcflib: the filter expression engine and genotype model of [Variant.h]

    A shallow embedding of [src/Variant.h].  The header defines the rule
    tokens, their precedence, associativity and classification, the
    [convert] helper and the classes [VariantCallFile], [Variant] and
    [VariantFilter]; these are embedded from the source.  It only declares
    the tokenizer, the [VariantFilter] constructor, [passes],
    [removeFilteredGenotypes], the typed accessors and the genotype
    functions; their bodies are modelled from the specification, each
    under a comment that says so.

    A [double] is carried as a rational.  The extraction behind
    [convert] stores the binary64 number nearest to what it read; the
    numbers of the specification, with which the functions modelled from
    it compute, are the exact decimals: the literals and comparisons the
    properties below depend on are exact in binary64 or order the same
    way. *)

From Stdlib Require Import ZArith QArith Ascii String List Bool Lia.
From stdpp Require Import gmap strings list fin_maps.

Local Open Scope string_scope.
Local Open Scope Z_scope.

(** ** Outcomes of a call

    A call of the C++ code either returns a value, or reports an error to
    its caller, or ends the whole process ([exit]).  The three are kept
    apart: a caller can recover from [Fails], never from [Exits]. *)

Inductive Error : Type :=
  | SyntaxError (lexeme : string)      (* unrecognized operand *)
  | UnbalancedParentheses
  | TypeMismatch
  | MalformedFilter
  | DivideByZero
  | UnknownKey (key : string)
  | UnknownSample (sample : string)
  | CardinalityError (key : string)
  | ValueError (raw : string)
  | MalformedGenotype (genotype : string).

Inductive Outcome (A : Type) : Type :=
  | Returns (a : A)
  | Fails (e : Error)
  | Exits (status : Z) (stderr : string).

Arguments Returns {A} a.
Arguments Fails {A} e.
Arguments Exits {A} status stderr.

Definition bindO {A B} (m : Outcome A) (k : A -> Outcome B) : Outcome B :=
  match m with
  | Returns a => k a
  | Fails e => Fails e
  | Exits st msg => Exits st msg
  end.

Declare Scope outcome_scope.
Delimit Scope outcome_scope with outcome.
Notation "x <- m ;; k" := (bindO m (fun x => k))
  (at level 100, m at next level, right associativity) : outcome_scope.

Definition recoverable {A} (o : Outcome A) : bool :=
  match o with
  | Exits _ _ => false
  | _ => true
  end.

(** ** Constants and enums of the header *)

Inductive VariantFieldType : Type :=
  | FIELD_FLOAT
  | FIELD_INTEGER
  | FIELD_BOOL
  | FIELD_STRING
  | FIELD_UNKNOWN.

Definition ALLELE_NUMBER : Z := -2.
Definition GENOTYPE_NUMBER : Z := -1.

Definition INDEX_NONE : Z := -1.
Definition NULL_ALLELE : Z := -1.

(** ** RuleToken *)

Module RuleToken.

Inductive RuleTokenType : Type :=
  | OPERAND
  | NUMBER
  | BOOLEAN_VARIABLE
  | NUMERIC_VARIABLE
  | STRING_VARIABLE
  | AND_OPERATOR
  | OR_OPERATOR
  | ADD_OPERATOR
  | SUBTRACT_OPERATOR
  | MULTIPLY_OPERATOR
  | DIVIDE_OPERATOR
  | NOT_OPERATOR
  | EQUAL_OPERATOR
  | GREATER_THAN_OPERATOR
  | LESS_THAN_OPERATOR
  | LEFT_PARENTHESIS
  | RIGHT_PARENTHESIS.

(** The enumerators count up from [OPERAND = 0]. *)
Definition enumerator (t : RuleTokenType) : Z :=
  match t with
  | OPERAND => 0
  | NUMBER => 1
  | BOOLEAN_VARIABLE => 2
  | NUMERIC_VARIABLE => 3
  | STRING_VARIABLE => 4
  | AND_OPERATOR => 5
  | OR_OPERATOR => 6
  | ADD_OPERATOR => 7
  | SUBTRACT_OPERATOR => 8
  | MULTIPLY_OPERATOR => 9
  | DIVIDE_OPERATOR => 10
  | NOT_OPERATOR => 11
  | EQUAL_OPERATOR => 12
  | GREATER_THAN_OPERATOR => 13
  | LESS_THAN_OPERATOR => 14
  | LEFT_PARENTHESIS => 15
  | RIGHT_PARENTHESIS => 16
  end.

(** [double] members are carried as exact rationals. *)
Record t : Type := mk
  { type : RuleTokenType
  ; value : string
  ; number : Q
  ; str : string
  ; state : bool
  ; isVariable : bool
  }.

(** [RuleToken(void)]: a boolean token whose state is false.  The
    members the constructor leaves uninitialised are given zero values. *)
Definition default : t :=
  {| type := BOOLEAN_VARIABLE; value := EmptyString; number := 0%Q;
     str := EmptyString; state := false; isVariable := false |}.

End RuleToken.

Import RuleToken(RuleTokenType, OPERAND, NUMBER, BOOLEAN_VARIABLE,
  NUMERIC_VARIABLE, STRING_VARIABLE, AND_OPERATOR, OR_OPERATOR, ADD_OPERATOR,
  SUBTRACT_OPERATOR, MULTIPLY_OPERATOR, DIVIDE_OPERATOR, NOT_OPERATOR,
  EQUAL_OPERATOR, GREATER_THAN_OPERATOR, LESS_THAN_OPERATOR,
  LEFT_PARENTHESIS, RIGHT_PARENTHESIS).

(** [a == b] on enumerators. *)
Definition type_is (tok : RuleToken.t) (ty : RuleTokenType) : bool :=
  RuleToken.enumerator (RuleToken.type tok) =? RuleToken.enumerator ty.

(** What [<< endl] writes. *)
Definition endl : string := String "010" EmptyString.

Definition priority (token : RuleToken.t) : Outcome Z :=
  match RuleToken.type token with
  | MULTIPLY_OPERATOR => Returns 8
  | DIVIDE_OPERATOR => Returns 8
  | ADD_OPERATOR => Returns 7
  | SUBTRACT_OPERATOR => Returns 7
  | NOT_OPERATOR => Returns 6
  | EQUAL_OPERATOR => Returns 5
  | GREATER_THAN_OPERATOR => Returns 5
  | LESS_THAN_OPERATOR => Returns 5
  | AND_OPERATOR => Returns 4
  | OR_OPERATOR => Returns 3
  | LEFT_PARENTHESIS => Returns 0
  | RIGHT_PARENTHESIS => Returns 0
  | _ => Exits 1 ("invalid token type" ++ endl)
  end.

Definition isRightAssociative (token : RuleToken.t) : bool :=
  type_is token NOT_OPERATOR || type_is token LEFT_PARENTHESIS.

Definition isLeftAssociative (token : RuleToken.t) : bool :=
  negb (isRightAssociative token).

Definition isLeftParenthesis (token : RuleToken.t) : bool :=
  type_is token LEFT_PARENTHESIS.

Definition isRightParenthesis (token : RuleToken.t) : bool :=
  type_is token RIGHT_PARENTHESIS.

Definition isOperand (token : RuleToken.t) : bool :=
  type_is token OPERAND ||
  type_is token NUMBER ||
  type_is token NUMERIC_VARIABLE ||
  type_is token STRING_VARIABLE ||
  type_is token BOOLEAN_VARIABLE.

Definition isOperator (token : RuleToken.t) : bool :=
  type_is token AND_OPERATOR ||
  type_is token OR_OPERATOR ||
  type_is token NOT_OPERATOR ||
  type_is token EQUAL_OPERATOR ||
  type_is token GREATER_THAN_OPERATOR ||
  type_is token LESS_THAN_OPERATOR ||
  type_is token MULTIPLY_OPERATOR ||
  type_is token DIVIDE_OPERATOR ||
  type_is token ADD_OPERATOR ||
  type_is token SUBTRACT_OPERATOR.

Definition isOperatorChar (c : ascii) : bool :=
  (c =? "!")%char ||
  (c =? "&")%char ||
  (c =? "|")%char ||
  (c =? "=")%char ||
  (c =? ">")%char ||
  (c =? "<")%char ||
  (c =? "*")%char ||
  (c =? "/")%char ||
  (c =? "+")%char ||
  (c =? "-")%char.

Definition isParanChar (c : ascii) : bool :=
  (c =? "(")%char || (c =? ")")%char.

Definition isNumeric (token : RuleToken.t) : bool :=
  type_is token NUMERIC_VARIABLE.

Definition isString (token : RuleToken.t) : bool :=
  type_is token STRING_VARIABLE.

Definition isBoolean (token : RuleToken.t) : bool :=
  type_is token BOOLEAN_VARIABLE.

Definition isVariable (token : RuleToken.t) : bool :=
  isNumeric token || isString token || isBoolean token.

(** ** Numbers in text

    The pieces from which the readers of numbers below are made. *)

Definition isspace (c : ascii) : bool :=
  let n := nat_of_ascii c in
  ((9 <=? n) && (n <=? 13) || (n =? 32))%nat.

Definition isdigit (c : ascii) : bool :=
  let n := nat_of_ascii c in
  ((48 <=? n) && (n <=? 57))%nat.

Definition digitValue (c : ascii) : Z := Z.of_nat (nat_of_ascii c) - 48.

(** The longest prefix whose characters satisfy [p], and the rest. *)
Fixpoint span (p : ascii -> bool) (s : string) : string * string :=
  match s with
  | EmptyString => (EmptyString, EmptyString)
  | String c rest =>
      if p c then
        let '(taken, remaining) := span p rest in (String c taken, remaining)
      else (EmptyString, s)
  end.

Fixpoint digitsValue (acc : Z) (digits : string) : Z :=
  match digits with
  | EmptyString => acc
  | String c rest => digitsValue (10 * acc + digitValue c) rest
  end.

(** An optional sign: whether it is a minus, how many characters, the rest. *)
Definition scanSign (s : string) : bool * nat * string :=
  match s with
  | String c rest =>
      if (c =? "-")%char then (true, 1%nat, rest)
      else if (c =? "+")%char then (false, 1%nat, rest)
      else (false, 0%nat, s)
  | EmptyString => (false, 0%nat, s)
  end.

Definition applySign (negative : bool) (z : Z) : Z :=
  if negative then - z else z.

(** An exponent part [e][sign][digits], read only after a mantissa digit:
    its value when the digits are there, and the characters read. *)
Definition scanExponent (s : string) : option Z * nat :=
  match s with
  | String c rest =>
      if (c =? "e")%char || (c =? "E")%char then
        let '(negative, nsign, s1) := scanSign rest in
        let '(digits, _) := span isdigit s1 in
        let n := (1 + nsign + String.length digits)%nat in
        if (String.length digits =? 0)%nat then (None, n)
        else (Some (applySign negative (digitsValue 0 digits)), n)
      else (Some 0, 0%nat)
  | EmptyString => (Some 0, 0%nat)
  end.

(** *** The numbers of the specification

    The tokenizer, the typed accessors and [decomposeGenotype] are
    declared in the header only.  The specification has them accept a text
    that "parses fully as a number (no leftover characters after consuming
    the whole lexeme)"; that rule is [parsesFully]. *)

(** Modelled from the spec: what a number of kind [T] looks like at the
    front of a text: its value, when the characters read form one, and
    how many characters were read.  The header has no such reader. *)
Class NumberSyntax (T : Type) : Type :=
  scan : string -> option T * nat.

(** Modelled from the spec: an integer: leading white space, a sign,
    decimal digits; a value outside the 32-bit range is no integer. *)
Definition scanInt (s : string) : option Z * nat :=
  let '(ws, s1) := span isspace s in
  let '(negative, nsign, s2) := scanSign s1 in
  let '(digits, _) := span isdigit s2 in
  let n := (String.length ws + nsign + String.length digits)%nat in
  let v := applySign negative (digitsValue 0 digits) in
  if (String.length digits =? 0)%nat then (None, n)
  else if (- 2 ^ 31 <=? v) && (v <? 2 ^ 31) then (Some v, n)
  else (None, n).

(** Modelled from the spec: a boolean value is written as the integer 0
    or 1. *)
Definition scanBool (s : string) : option bool * nat :=
  match scanInt s with
  | (Some 0, n) => (Some false, n)
  | (Some 1, n) => (Some true, n)
  | (_, n) => (None, n)
  end.

(** Modelled from the spec: a number: leading white space, a sign, digits
    with at most one decimal point, an exponent.  The value is the exact
    decimal the characters denote. *)
Definition scanDouble (s : string) : option Q * nat :=
  let '(ws, s1) := span isspace s in
  let '(negative, nsign, s2) := scanSign s1 in
  let '(whole, s3) := span isdigit s2 in
  let '(npoint, fraction, s4) :=
    match s3 with
    | String c rest =>
        if (c =? ".")%char then
          let '(fraction, s4) := span isdigit rest in (1%nat, fraction, s4)
        else (0%nat, EmptyString, s3)
    | EmptyString => (0%nat, EmptyString, s3)
    end in
  let nmantissa := (String.length whole + String.length fraction)%nat in
  let n0 := (String.length ws + nsign + String.length whole + npoint
             + String.length fraction)%nat in
  if (nmantissa =? 0)%nat then (None, n0)
  else
    let '(exponent, nexp) := scanExponent s4 in
    match exponent with
    | None => (None, (n0 + nexp)%nat)
    | Some e =>
        let mantissa :=
          applySign negative (digitsValue 0 (whole ++ fraction)) in
        let scale := e - Z.of_nat (String.length fraction) in
        (Some (Qred (inject_Z mantissa * Qpower (10 # 1) scale)%Q),
         (n0 + nexp)%nat)
    end.

#[export] Instance NumberSyntax_int : NumberSyntax Z := scanInt.
#[export] Instance NumberSyntax_bool : NumberSyntax bool := scanBool.
#[export] Instance NumberSyntax_double : NumberSyntax Q := scanDouble.

(** Modelled from the spec: "parses fully as a number (no leftover
    characters after consuming the whole lexeme)": the number, when the
    whole text is one. *)
Definition parsesFully {T} `{NumberSyntax T} (s : string) : option T :=
  match scan s with
  | (Some v, n) => if (String.length s <=? n)%nat then Some v else None
  | (None, _) => None
  end.

(** ** [istringstream] and formatted extraction

    [convert] is written against three members of the stream: formatted
    extraction ([>>]), [fail] and [tellg].  They are modelled as the
    standard library has them since ISO C++ 2011, which is how every
    build of the header behaves: [>>] and [tellg] both start by making a
    sentry, which raises [failbit] on a stream that is not good, so
    [tellg] answers [pos_type(-1)] once an extraction has run into the end
    of the buffer; and a numeric extraction that fails still stores a
    value. *)

Record istringstream : Type :=
  { content : string
  ; gpos : nat
  ; failbit : bool
  ; eofbit : bool
  }.

Definition open_istringstream (s : string) : istringstream :=
  {| content := s; gpos := 0%nat; failbit := false; eofbit := false |}.

Definition fail (iss : istringstream) : bool := failbit iss.

Definition good (iss : istringstream) : bool :=
  negb (failbit iss || eofbit iss).

(** [setstate(failbit)]. *)
Definition setFailbit (iss : istringstream) : istringstream :=
  {| content := content iss; gpos := gpos iss;
     failbit := true; eofbit := eofbit iss |}.

(** [tellg()]: the sentry raises [failbit] unless the stream is good; the
    answer is [-1] when [fail()] then holds and the get position
    otherwise. *)
Definition tellg (iss : istringstream) : Z * istringstream :=
  let iss := if good iss then iss else setFailbit iss in
  (if fail iss then -1 else Z.of_nat (gpos iss), iss).

Fixpoint dropChars (n : nat) (s : string) : string :=
  match n, s with
  | O, _ => s
  | S n', String _ rest => dropChars n' rest
  | S _, EmptyString => EmptyString
  end.

(** What [num_get] does with the characters in front of it, the white
    space before them already skipped: the value it stores, whether it
    reports [failbit], and how many characters it read.  It reads on as
    long as the next character continues the number, so it has run into
    the end of the buffer exactly when it read every character. *)
Class Extraction (T : Type) : Type :=
  num_get : string -> T * bool * nat.

(** [iss >> r].  The sentry fails a stream that is not good, skips white
    space, and fails (raising [eofbit] too) when nothing is left; in
    these cases [r] is not touched.  Otherwise [num_get] reads, the get
    position moves over what was read, and [r] receives the value
    stored. *)
Definition extract {T} `{Extraction T} (iss : istringstream) (r : T)
  : istringstream * T :=
  if good iss then
    let '(ws, unread) :=
      span isspace (dropChars (gpos iss) (content iss)) in
    match unread with
    | EmptyString =>
        ({| content := content iss;
            gpos := (gpos iss + String.length ws)%nat;
            failbit := true; eofbit := true |}, r)
    | String _ _ =>
        let '(v, failed, n) := num_get unread in
        ({| content := content iss;
            gpos := (gpos iss + String.length ws
                     + Nat.min n (String.length unread))%nat;
            failbit := failed;
            eofbit := (String.length unread <=? n)%nat |}, v)
    end
  else (setFailbit iss, r).

(** [tellg() != s.size()] compares a [streamoff] with a [size_t]: both
    sides are taken to the unsigned 64-bit type. *)
Definition to_size_t (z : Z) : Z := z mod 2 ^ 64.

(** [convert]: the flag returned, and [r] after the call. *)
Definition convert {T} `{Extraction T} (s : string) (r : T) : bool * T :=
  let iss := open_istringstream s in
  let '(iss, r) := extract iss r in
  (if fail iss ||
      negb (to_size_t (fst (tellg iss))
            =? to_size_t (Z.of_nat (String.length s)))%Z
   then false else true, r).

(** *** The extractions of [int], [bool] and [double] *)

Definition INT_MIN : Z := - 2 ^ 31.
Definition INT_MAX : Z := 2 ^ 31 - 1.
Definition LONG_MIN : Z := - 2 ^ 63.
Definition LONG_MAX : Z := 2 ^ 63 - 1.

(** [num_get] for a [long]: a sign and decimal digits.  Without a digit
    it stores 0 and fails; a value out of range is replaced by the
    nearest [long] and fails, all the digits being read. *)
Definition getLong (s : string) : Z * bool * nat :=
  let '(negative, nsign, s1) := scanSign s in
  let '(digits, _) := span isdigit s1 in
  let n := (nsign + String.length digits)%nat in
  let v := applySign negative (digitsValue 0 digits) in
  if (String.length digits =? 0)%nat then (0, true, n)
  else if v <? LONG_MIN then (LONG_MIN, true, n)
  else if LONG_MAX <? v then (LONG_MAX, true, n)
  else (v, false, n).

(** [operator>>(int&)] reads a [long] and narrows it: a value out of the
    range of [int] is replaced by the nearest [int] and fails. *)
Definition getInt (s : string) : Z * bool * nat :=
  let '(l, failed, n) := getLong s in
  if l <? INT_MIN then (INT_MIN, true, n)
  else if INT_MAX <? l then (INT_MAX, true, n)
  else (l, failed, n).

(** [bool] without [boolalpha]: read as a [long]; 0 is false, 1 is true,
    any other value stores true and fails. *)
Definition getBool (s : string) : bool * bool * nat :=
  let '(l, failed, n) := getLong s in
  if l =? 0 then (false, failed, n)
  else if l =? 1 then (true, failed, n)
  else (true, true, n).

(** Round to nearest, ties to even, of [n / d], for [0 <= n] and [0 < d]. *)
Definition roundHalfEven (n d : Z) : Z :=
  let q := n / d in
  match 2 * (n mod d) ?= d with
  | Lt => q
  | Gt => q + 1
  | Eq => if Z.even q then q else q + 1
  end.

(** The binary64 number nearest to a positive rational: 53 significant
    bits, no exponent below -1074 and none bounded above, so that a
    rational out of range gives 2^1024 or more. *)
Definition binary64 (q : Q) : Q :=
  let n := Qnum q in
  let d := Zpos (Qden q) in
  if n <=? 0 then 0%Q
  else
    let e := Z.log2 n - Z.log2 d in
    let top := if d * 2 ^ Z.max 0 e <=? n * 2 ^ Z.max 0 (- e)
               then e else e - 1 in
    let unit := Z.max (top - 52) (- 1074) in
    let m := roundHalfEven (n * 2 ^ Z.max 0 (- unit))
                           (d * 2 ^ Z.max 0 unit) in
    Qred (inject_Z m * Qpower (2 # 1) unit)%Q.

Definition DBL_MAX : Q := inject_Z (2 ^ 1024 - 2 ^ 971).

Definition applySignQ (negative : bool) (q : Q) : Q :=
  if negative then Qopp q else q.

(** [num_get] for a [double]: a sign, digits with at most one decimal
    point, an exponent.  Characters that are no number store 0 and fail;
    a number out of range stores the largest [double] with its sign and
    fails; otherwise the nearest [double] is stored. *)
Definition getDouble (s : string) : Q * bool * nat :=
  let '(negative, nsign, s2) := scanSign s in
  let '(whole, s3) := span isdigit s2 in
  let '(npoint, fraction, s4) :=
    match s3 with
    | String c rest =>
        if (c =? ".")%char then
          let '(fraction, s4) := span isdigit rest in (1%nat, fraction, s4)
        else (0%nat, EmptyString, s3)
    | EmptyString => (0%nat, EmptyString, s3)
    end in
  let nmantissa := (String.length whole + String.length fraction)%nat in
  let n0 := (nsign + String.length whole + npoint
             + String.length fraction)%nat in
  if (nmantissa =? 0)%nat then (0%Q, true, n0)
  else
    let '(exponent, nexp) := scanExponent s4 in
    match exponent with
    | None => (0%Q, true, (n0 + nexp)%nat)
    | Some e =>
        let scale := e - Z.of_nat (String.length fraction) in
        let magnitude :=
          binary64 (inject_Z (digitsValue 0 (whole ++ fraction))
                    * Qpower (10 # 1) scale)%Q in
        if Qle_bool magnitude DBL_MAX
        then (applySignQ negative magnitude, false, (n0 + nexp)%nat)
        else (applySignQ negative DBL_MAX, true, (n0 + nexp)%nat)
    end.

#[export] Instance Extraction_int : Extraction Z := getInt.
#[export] Instance Extraction_bool : Extraction bool := getBool.
#[export] Instance Extraction_double : Extraction Q := getDouble.

(** ** The record model *)

Module VariantCallFile.

(** The members the core reads.  The stream handles ([file],
    [tabixFile], [_file]) and the flags of the reading code belong to the
    file layer and are left out. *)
Record t : Type := mk
  { header : string
  ; line : string
  ; fileformat : string
  ; fileDate : string
  ; source : string
  ; reference : string
  ; phasing : string
  ; infoTypes : gmap string VariantFieldType
  ; infoCounts : gmap string Z
  ; formatTypes : gmap string VariantFieldType
  ; formatCounts : gmap string Z
  ; sampleNames : list string
  }.

End VariantCallFile.

Module Variant.

Record t : Type := mk
  { vcf : VariantCallFile.t
  ; sequenceName : string
  ; position : Z
  ; id : string
  ; ref : string
  ; alt : list string
  ; alleles : list string
  ; altAlleleIndecies : gmap string Z
  ; filter : string
  ; quality : Q
  ; info : gmap string (list string)
  ; infoFlags : gmap string bool
  ; format : list string
  ; samples : gmap string (gmap string (list string))
  ; sampleNames : list string
  ; outputSampleNames : list string
  ; lastFormat : string
  }.

(** [var.samples = s], every other member as it was. *)
Definition set_samples (s : gmap string (gmap string (list string)))
    (var : t) : t :=
  {| vcf := vcf var; sequenceName := sequenceName var;
     position := position var; id := id var; ref := ref var;
     alt := alt var; alleles := alleles var;
     altAlleleIndecies := altAlleleIndecies var; filter := filter var;
     quality := quality var; info := info var;
     infoFlags := infoFlags var; format := format var;
     samples := s; sampleNames := sampleNames var;
     outputSampleNames := outputSampleNames var;
     lastFormat := lastFormat var |}.

End Variant.

(** ** Calls that take the record by reference

    [passes] and [removeFilteredGenotypes] receive a [Variant&]: a call is
    a function from the record before to an outcome and the record after.
    The record after is there for every outcome, since a change made in
    place before an error stays made. *)

Definition Action (A : Type) : Type := Variant.t -> Outcome A * Variant.t.

Definition retA {A} (a : A) : Action A := fun var => (Returns a, var).

Definition bindA {A B} (m : Action A) (k : A -> Action B) : Action B :=
  fun var =>
    match m var with
    | (Returns a, var') => k a var'
    | (Fails e, var') => (Fails e, var')
    | (Exits st msg, var') => (Exits st msg, var')
    end.

Definition liftO {A} (o : Outcome A) : Action A := fun var => (o, var).

Definition getVar : Action Variant.t := fun var => (Returns var, var).

Definition modifyVar (f : Variant.t -> Variant.t) : Action unit :=
  fun var => (Returns tt, f var).

Declare Scope action_scope.
Delimit Scope action_scope with action.
Notation "x <- m ;; k" := (bindA m (fun x => k))
  (at level 100, m at next level, right associativity) : action_scope.

Fixpoint forEach {A} (l : list A) (body : A -> Action unit) : Action unit :=
  match l with
  | [] => retA tt
  | x :: rest => (_ <- body x;; forEach rest body)%action
  end.

(** ** The typed accessors *)

(** Modelled from the spec: the generic join helper ([join.h]) is outside
    the header; the values of a field taken as a whole are joined with
    commas. *)
Fixpoint join (values : list string) (delim : string) : string :=
  match values with
  | [] => EmptyString
  | [v] => v
  | v :: rest => (v ++ delim ++ join rest delim)%string
  end.

(** Modelled from the spec: the value string of a stored sequence, at the
    allele index when one is given and as a whole when the index is
    [INDEX_NONE] (section 4.4); an index with no entry disagrees with the
    field's cardinality. *)
Definition valueAt (key : string) (values : list string) (index : Z)
  : Outcome string :=
  if index =? INDEX_NONE then Returns (join values ",")
  else if index <? 0 then Fails (CardinalityError key)
  else match values !! Z.to_nat index with
       | Some v => Returns v
       | None => Fails (CardinalityError key)
       end.

(** Modelled from the spec: the raw value of an INFO key ([getInfoValue*],
    declared in the header only); an absent key is an unknown key. *)
Definition getInfoValueString (key : string) (index : Z) : Action string :=
  (var <- getVar;;
   match Variant.info var !! key with
   | Some values => liftO (valueAt key values index)
   | None => liftO (Fails (UnknownKey key))
   end)%action.

(** Modelled from the spec: the raw value of a key of the named sample
    ([getSampleValue*], declared in the header only); an absent sample is
    an unknown sample, an absent key an unknown key. *)
Definition getSampleValueString (key sample : string) (index : Z)
  : Action string :=
  (var <- getVar;;
   match Variant.samples var !! sample with
   | Some fields =>
       match fields !! key with
       | Some values => liftO (valueAt key values index)
       | None => liftO (Fails (UnknownKey key))
       end
   | None => liftO (Fails (UnknownSample sample))
   end)%action.

(** Modelled from the spec: a raw value converted to the declared kind;
    a value that does not parse fully is a data error. *)
Definition convertValue {T} `{NumberSyntax T} (raw : string) : Outcome T :=
  match parsesFully raw with
  | Some v => Returns v
  | None => Fails (ValueError raw)
  end.

(** Modelled from the spec: [getInfoValueFloat], declared in the header
    only: the raw value converted to a number. *)
Definition getInfoValueFloat (key : string) (index : Z) : Action Q :=
  (raw <- getInfoValueString key index;; liftO (convertValue (T := Q) raw))%action.

(** Modelled from the spec: [getInfoValueBool], declared in the header
    only: a boolean INFO key is a flag, read from the flag store. *)
Definition getInfoValueBool (key : string) (index : Z) : Action bool :=
  (var <- getVar;;
   match Variant.infoFlags var !! key with
   | Some b => retA b
   | None => liftO (Fails (UnknownKey key))
   end)%action.

(** Modelled from the spec: [getSampleValueFloat], declared in the header
    only: the raw value converted to a number. *)
Definition getSampleValueFloat (key sample : string) (index : Z) : Action Q :=
  (raw <- getSampleValueString key sample index;;
   liftO (convertValue (T := Q) raw))%action.

(** Modelled from the spec: [getSampleValueBool], declared in the header
    only: the raw value converted to a boolean. *)
Definition getSampleValueBool (key sample : string) (index : Z)
  : Action bool :=
  (raw <- getSampleValueString key sample index;;
   liftO (convertValue (T := bool) raw))%action.

(** Modelled from the spec: [getValueString], declared in the header
    only, looks the key up in INFO when no sample is given and in the named
    sample's values otherwise. *)
Definition getValueString (key : string) (sample : option string) (index : Z)
  : Action string :=
  match sample with
  | Some name => getSampleValueString key name index
  | None => getInfoValueString key index
  end.

(** Modelled from the spec: [getValueFloat], declared in the header
    only; as [getValueString]. *)
Definition getValueFloat (key : string) (sample : option string) (index : Z)
  : Action Q :=
  match sample with
  | Some name => getSampleValueFloat key name index
  | None => getInfoValueFloat key index
  end.

(** Modelled from the spec: [getValueBool], declared in the header only;
    as [getValueString]. *)
Definition getValueBool (key : string) (sample : option string) (index : Z)
  : Action bool :=
  match sample with
  | Some name => getSampleValueBool key name index
  | None => getInfoValueBool key index
  end.

(** ** The filter tokenizer *)

(** Modelled from the spec: the token type of an operator or parenthesis
    character (section 6 lists the ten operators and the two parentheses;
    the [RuleToken] constructor is declared in the header only). *)
Definition operatorType (c : ascii) : option RuleTokenType :=
  if (c =? "!")%char then Some NOT_OPERATOR
  else if (c =? "&")%char then Some AND_OPERATOR
  else if (c =? "|")%char then Some OR_OPERATOR
  else if (c =? "=")%char then Some EQUAL_OPERATOR
  else if (c =? ">")%char then Some GREATER_THAN_OPERATOR
  else if (c =? "<")%char then Some LESS_THAN_OPERATOR
  else if (c =? "*")%char then Some MULTIPLY_OPERATOR
  else if (c =? "/")%char then Some DIVIDE_OPERATOR
  else if (c =? "+")%char then Some ADD_OPERATOR
  else if (c =? "-")%char then Some SUBTRACT_OPERATOR
  else if (c =? "(")%char then Some LEFT_PARENTHESIS
  else if (c =? ")")%char then Some RIGHT_PARENTHESIS
  else None.

(** Modelled from the spec: Boolean for the Boolean field type, Numeric
    for Float and Integer, String for String and Unknown. *)
Definition variableType (ft : VariantFieldType) : RuleTokenType :=
  match ft with
  | FIELD_BOOL => BOOLEAN_VARIABLE
  | FIELD_FLOAT | FIELD_INTEGER => NUMERIC_VARIABLE
  | FIELD_STRING | FIELD_UNKNOWN => STRING_VARIABLE
  end.

(** Modelled from the spec: the token of a lexeme that names a registry
    key of field type [ft]; it carries the name and is not yet resolved. *)
Definition variableToken (lexeme : string) (ft : VariantFieldType)
  : RuleToken.t :=
  {| RuleToken.type := variableType ft; RuleToken.value := lexeme;
     RuleToken.number := 0%Q; RuleToken.str := EmptyString;
     RuleToken.state := false; RuleToken.isVariable := true |}.

(** Modelled from the spec: the Number token of a lexeme that reads as
    the number [x]. *)
Definition numberToken (lexeme : string) (x : Q) : RuleToken.t :=
  {| RuleToken.type := NUMBER; RuleToken.value := lexeme;
     RuleToken.number := x; RuleToken.str := EmptyString;
     RuleToken.state := false; RuleToken.isVariable := false |}.

(** Modelled from the spec: the token of an operator or parenthesis. *)
Definition operatorToken (ty : RuleTokenType) (text : string) : RuleToken.t :=
  {| RuleToken.type := ty; RuleToken.value := text;
     RuleToken.number := 0%Q; RuleToken.str := EmptyString;
     RuleToken.state := false; RuleToken.isVariable := false |}.

(** Modelled from the spec: the classification of an operand lexeme
    (section 4.2): a registry key is a variable of the declared kind;
    otherwise a lexeme that parses fully as a number is a Number;
    otherwise lexing fails with a syntax error. *)
Definition classifyOperand (lexeme : string)
    (variables : gmap string VariantFieldType) : Outcome RuleToken.t :=
  match variables !! lexeme with
  | Some ft => Returns (variableToken lexeme ft)
  | None =>
      match parsesFully lexeme with
      | Some x => Returns (numberToken lexeme x)
      | None => Fails (SyntaxError lexeme)
      end
  end.

(** Modelled from the spec: [RuleToken(string token, variables)], declared
    in the header only: a single operator or parenthesis character is its
    token, anything else is classified as an operand. *)
Definition makeRuleToken (token : string)
    (variables : gmap string VariantFieldType) : Outcome RuleToken.t :=
  match token with
  | String c EmptyString =>
      match operatorType c with
      | Some ty => Returns (operatorToken ty token)
      | None => classifyOperand token variables
      end
  | _ => classifyOperand token variables
  end.

(** Modelled from the spec: the operand run read so far ends here; an
    empty run is no lexeme. *)
Definition flushLexeme (lexeme : string) : list string :=
  match lexeme with
  | EmptyString => []
  | _ => [lexeme]
  end.

(** Modelled from the spec: the scanning rule of section 4.2.  Each
    operator or parenthesis character is a lexeme of its own, white space
    separates, and any other maximal run of characters is one operand
    lexeme.  [lexeme] is the run read so far. *)
Fixpoint scanFilterSpec (filterspec : string) (lexeme : string)
  : list string :=
  match filterspec with
  | EmptyString => flushLexeme lexeme
  | String c rest =>
      if isOperatorChar c || isParanChar c then
        flushLexeme lexeme ++ [String c EmptyString]
          ++ scanFilterSpec rest EmptyString
      else if isspace c then
        flushLexeme lexeme ++ scanFilterSpec rest EmptyString
      else scanFilterSpec rest (lexeme ++ String c EmptyString)
  end.

(** Modelled from the spec: the lexemes become tokens from left to right;
    the first lexeme that is no token ends the tokenization. *)
Fixpoint makeRuleTokens (lexemes : list string)
    (variables : gmap string VariantFieldType) : Outcome (list RuleToken.t) :=
  match lexemes with
  | [] => Returns []
  | lexeme :: rest =>
      (token <- makeRuleToken lexeme variables;;
       tokens <- makeRuleTokens rest variables;;
       Returns (token :: tokens))%outcome
  end.

(** Modelled from the spec: [tokenizeFilterSpec], declared in the header
    only; the result is the infix token sequence in source order. *)
Definition tokenizeFilterSpec (filterspec : string)
    (variables : gmap string VariantFieldType) : Outcome (list RuleToken.t) :=
  makeRuleTokens (scanFilterSpec filterspec EmptyString) variables.

(** ** The filter parser *)

Module VariantFilter.

Inductive VariantFilterType : Type :=
  | SAMPLE
  | RECORD.

Record t : Type := mk
  { spec : string
  ; tokens : list RuleToken.t   (* infix order, front first *)
  ; rules : list RuleToken.t    (* evaluation order, front first *)
  ; type : VariantFilterType
  }.

End VariantFilter.

(** Modelled from the spec: step 3 of section 4.3.  Pops operators to the
    output until a left parenthesis is popped; both parentheses are
    dropped; an operator stack that empties first is unbalanced. *)
Fixpoint popToLeftParenthesis (operators output : list RuleToken.t)
  : Outcome (list RuleToken.t * list RuleToken.t) :=
  match operators with
  | [] => Fails UnbalancedParentheses
  | top :: rest =>
      if isLeftParenthesis top then Returns (rest, output)
      else popToLeftParenthesis rest (output ++ [top])
  end.

(** Modelled from the spec: step 4 of section 4.3.  While the top of the
    operator stack is no parenthesis and binds at least as tightly as [op]
    requires, it goes to the output. *)
Fixpoint popTighter (op : RuleToken.t) (operators output : list RuleToken.t)
  : Outcome (list RuleToken.t * list RuleToken.t) :=
  match operators with
  | [] => Returns ([], output)
  | top :: rest =>
      if isLeftParenthesis top || isRightParenthesis top then
        Returns (operators, output)
      else
        (ptop <- priority top;;
         pop <- priority op;;
         if (ptop >? pop) || ((ptop =? pop) && isLeftAssociative op)
         then popTighter op rest (output ++ [top])
         else Returns (operators, output))%outcome
  end.

(** Modelled from the spec: step 5 of section 4.3.  A parenthesis left on
    the operator stack at the end is unbalanced. *)
Fixpoint popRemaining (operators output : list RuleToken.t)
  : Outcome (list RuleToken.t) :=
  match operators with
  | [] => Returns output
  | top :: rest =>
      if isLeftParenthesis top || isRightParenthesis top then
        Fails UnbalancedParentheses
      else popRemaining rest (output ++ [top])
  end.

(** Modelled from the spec: the single pass of section 4.3 over the infix
    sequence, with the operator stack (top first) and the output sequence. *)
Fixpoint infixToPostfix (tokens operators output : list RuleToken.t)
  : Outcome (list RuleToken.t) :=
  match tokens with
  | [] => popRemaining operators output
  | token :: rest =>
      if isOperand token then
        infixToPostfix rest operators (output ++ [token])
      else if isLeftParenthesis token then
        infixToPostfix rest (token :: operators) output
      else if isRightParenthesis token then
        (popped <- popToLeftParenthesis operators output;;
         infixToPostfix rest (fst popped) (snd popped))%outcome
      else
        (popped <- popTighter token operators output;;
         infixToPostfix rest (token :: fst popped) (snd popped))%outcome
  end.

(** Modelled from the spec: the [VariantFilter] constructor, declared in
    the header only: tokenize, then convert to evaluation order. *)
Definition newVariantFilter (filterspec : string)
    (filtertype : VariantFilter.VariantFilterType)
    (variables : gmap string VariantFieldType) : Outcome VariantFilter.t :=
  (tokens <- tokenizeFilterSpec filterspec variables;;
   rules <- infixToPostfix tokens [] [];;
   Returns {| VariantFilter.spec := filterspec;
              VariantFilter.tokens := tokens;
              VariantFilter.rules := rules;
              VariantFilter.type := filtertype |})%outcome.

(** ** The filter evaluator *)

(** Modelled from the spec: a new Numeric operand, the result of
    arithmetic. *)
Definition numberOperand (x : Q) : RuleToken.t :=
  {| RuleToken.type := NUMBER; RuleToken.value := EmptyString;
     RuleToken.number := x; RuleToken.str := EmptyString;
     RuleToken.state := false; RuleToken.isVariable := false |}.

(** Modelled from the spec: a new Boolean operand, the result of a
    comparison or of a logical operator; it is [RuleToken(void)] with its
    state set. *)
Definition booleanOperand (b : bool) : RuleToken.t :=
  {| RuleToken.type := BOOLEAN_VARIABLE; RuleToken.value := EmptyString;
     RuleToken.number := 0%Q; RuleToken.str := EmptyString;
     RuleToken.state := b; RuleToken.isVariable := false |}.

(** Modelled from the spec: a resolved operand is Numeric when it is a
    number or a numeric variable. *)
Definition isNumericOperand (token : RuleToken.t) : bool :=
  type_is token NUMBER || isNumeric token.

(** Modelled from the spec: an operand is resolved against the context.
    A Number is pushed as it is; a variable is looked up under its name
    and takes the value converted to its kind. *)
Definition resolve (token : RuleToken.t) (sample : option string) (index : Z)
  : Action RuleToken.t :=
  match RuleToken.type token with
  | NUMBER => retA token
  | BOOLEAN_VARIABLE =>
      (b <- getValueBool (RuleToken.value token) sample index;;
       retA {| RuleToken.type := BOOLEAN_VARIABLE;
               RuleToken.value := RuleToken.value token;
               RuleToken.number := RuleToken.number token;
               RuleToken.str := RuleToken.str token;
               RuleToken.state := b;
               RuleToken.isVariable := RuleToken.isVariable token |})%action
  | NUMERIC_VARIABLE =>
      (x <- getValueFloat (RuleToken.value token) sample index;;
       retA {| RuleToken.type := NUMERIC_VARIABLE;
               RuleToken.value := RuleToken.value token;
               RuleToken.number := x;
               RuleToken.str := RuleToken.str token;
               RuleToken.state := RuleToken.state token;
               RuleToken.isVariable := RuleToken.isVariable token |})%action
  | STRING_VARIABLE =>
      (s <- getValueString (RuleToken.value token) sample index;;
       retA {| RuleToken.type := STRING_VARIABLE;
               RuleToken.value := RuleToken.value token;
               RuleToken.number := RuleToken.number token;
               RuleToken.str := s;
               RuleToken.state := RuleToken.state token;
               RuleToken.isVariable := RuleToken.isVariable token |})%action
  | _ => liftO (Fails MalformedFilter)
  end.

(** [a < b] on numbers. *)
Definition Qlt_bool (a b : Q) : bool := negb (Qle_bool b a).

(** Modelled from the spec: a binary operator applied to its left and
    right operands.  Arithmetic wants two Numeric operands and gives a
    Numeric one, comparison two Numeric or two String operands, the
    logical operators two Boolean ones; these give a Boolean operand.
    Division by zero and every other combination are errors. *)
Definition applyBinary (op lhs rhs : RuleToken.t) : Outcome RuleToken.t :=
  let numeric := isNumericOperand lhs && isNumericOperand rhs in
  let textual := isString lhs && isString rhs in
  let logical := isBoolean lhs && isBoolean rhs in
  let x := RuleToken.number lhs in
  let y := RuleToken.number rhs in
  match RuleToken.type op with
  | ADD_OPERATOR =>
      if numeric then Returns (numberOperand (Qred (x + y)))
      else Fails TypeMismatch
  | SUBTRACT_OPERATOR =>
      if numeric then Returns (numberOperand (Qred (x - y)))
      else Fails TypeMismatch
  | MULTIPLY_OPERATOR =>
      if numeric then Returns (numberOperand (Qred (x * y)))
      else Fails TypeMismatch
  | DIVIDE_OPERATOR =>
      if numeric then
        if Qeq_bool y 0 then Fails DivideByZero
        else Returns (numberOperand (Qred (x / y)))
      else Fails TypeMismatch
  | EQUAL_OPERATOR =>
      if numeric then Returns (booleanOperand (Qeq_bool x y))
      else if textual then
        Returns (booleanOperand
                   (String.eqb (RuleToken.str lhs) (RuleToken.str rhs)))
      else Fails TypeMismatch
  | GREATER_THAN_OPERATOR =>
      if numeric then Returns (booleanOperand (Qlt_bool y x))
      else if textual then
        Returns (booleanOperand
                   (String.ltb (RuleToken.str rhs) (RuleToken.str lhs)))
      else Fails TypeMismatch
  | LESS_THAN_OPERATOR =>
      if numeric then Returns (booleanOperand (Qlt_bool x y))
      else if textual then
        Returns (booleanOperand
                   (String.ltb (RuleToken.str lhs) (RuleToken.str rhs)))
      else Fails TypeMismatch
  | AND_OPERATOR =>
      if logical then
        Returns (booleanOperand (RuleToken.state lhs && RuleToken.state rhs))
      else Fails TypeMismatch
  | OR_OPERATOR =>
      if logical then
        Returns (booleanOperand (RuleToken.state lhs || RuleToken.state rhs))
      else Fails TypeMismatch
  | _ => Fails MalformedFilter
  end.

(** Modelled from the spec: an operator applied to the operand stack (top
    first).  NOT pops one Boolean operand; every other operator pops the
    right operand and then the left one. *)
Definition applyOperator (op : RuleToken.t) (results : list RuleToken.t)
  : Outcome (list RuleToken.t) :=
  if type_is op NOT_OPERATOR then
    match results with
    | a :: rest =>
        if isBoolean a
        then Returns (booleanOperand (negb (RuleToken.state a)) :: rest)
        else Fails TypeMismatch
    | [] => Fails MalformedFilter
    end
  else
    match results with
    | rhs :: lhs :: rest =>
        (r <- applyBinary op lhs rhs;; Returns (r :: rest))%outcome
    | _ => Fails MalformedFilter
    end.

(** Modelled from the spec: one step of the walk: an operand is resolved
    and pushed, an operator is applied to the stack; a parenthesis has no
    place in the evaluation sequence. *)
Definition evaluateToken (token : RuleToken.t) (sample : option string)
    (index : Z) (results : list RuleToken.t) : Action (list RuleToken.t) :=
  if isOperand token then
    (r <- resolve token sample index;; retA (r :: results))%action
  else if isOperator token then liftO (applyOperator token results)
  else liftO (Fails MalformedFilter).

(** Modelled from the spec: the walk over the evaluation sequence with
    the operand stack (section 4.4). *)
Fixpoint evaluateRules (rules : list RuleToken.t) (sample : option string)
    (index : Z) (results : list RuleToken.t) : Action (list RuleToken.t) :=
  match rules with
  | [] => retA results
  | token :: rest =>
      (results' <- evaluateToken token sample index results;;
       evaluateRules rest sample index results')%action
  end.

(** Modelled from the spec: exactly one operand has to remain. *)
Definition finalOperand (results : list RuleToken.t) : Outcome RuleToken.t :=
  match results with
  | [r] => Returns r
  | _ => Fails MalformedFilter
  end.

(** Modelled from the spec: it has to be Boolean, and its state is the
    verdict. *)
Definition verdict (r : RuleToken.t) : Outcome bool :=
  if isBoolean r then Returns (RuleToken.state r) else Fails MalformedFilter.

(** Modelled from the spec: the operand a compiled filter evaluates to
    in a context: a sample or none, an allele index or [INDEX_NONE]. *)
Definition evaluate (f : VariantFilter.t) (sample : option string) (index : Z)
  : Action RuleToken.t :=
  (results <- evaluateRules (VariantFilter.rules f) sample index [];;
   liftO (finalOperand results))%action.

(** Modelled from the spec: a record-kind filter is evaluated once, with
    no sample and no allele index. *)
Definition passesRecord (f : VariantFilter.t) : Action bool :=
  (r <- evaluate f None INDEX_NONE;; liftO (verdict r))%action.

(** Modelled from the spec: the single-allele call shape of [passes].  The
    header declares the third argument as the allele; the specification
    has the evaluation take its index, which is what is modelled. *)
Definition passesAllele (f : VariantFilter.t) (sample : string) (index : Z)
  : Action bool :=
  (r <- evaluate f (Some sample) index;; liftO (verdict r))%action.

(** Modelled from the spec: the sample passes only if the evaluation is
    true at every one of the indices, taken in order. *)
Fixpoint allPass (f : VariantFilter.t) (sample : string) (indices : list Z)
  : Action bool :=
  match indices with
  | [] => retA true
  | index :: rest =>
      (ok <- passesAllele f sample index;;
       if ok then allPass f sample rest else retA false)%action
  end.

(** Modelled from the spec: the alternate allele indices of a record,
    one for each entry of [alt]. *)
Definition altIndices (var : Variant.t) : list Z :=
  seqZ 0 (Z.of_nat (length (Variant.alt var))).

(** Modelled from the spec: [passes(var, sample)], all alts pass: one
    evaluation for each alternate allele of the record. *)
Definition passes (f : VariantFilter.t) (sample : string) : Action bool :=
  (var <- getVar;; allPass f sample (altIndices var))%action.

(** ** Genotypes *)

(** Modelled from the spec: the phased and unphased separators. *)
Definition isGenotypeSeparator (c : ascii) : bool :=
  (c =? "/")%char || (c =? "|")%char.

(** Modelled from the spec: the all-missing genotype of the same ploidy:
    the separators stay, every allele position becomes the null marker. *)
Fixpoint missingAlleles (genotype : string) : string :=
  match genotype with
  | EmptyString => EmptyString
  | String c rest =>
      if isGenotypeSeparator c
      then String c (String "." (missingAlleles rest))
      else missingAlleles rest
  end.

(** Modelled from the spec: the all-missing genotype string. *)
Definition missingGenotype (genotype : string) : string :=
  String "." (missingAlleles genotype).

(** Modelled from the spec: the genotype field [GT] of the named sample
    rewritten in place; a sample or a field that is not there is not
    created, and every other field stays as it is. *)
Definition removeGenotype (name : string) (var : Variant.t) : Variant.t :=
  Variant.set_samples
    (alter (alter (map missingGenotype) "GT") name (Variant.samples var)) var.

(** Modelled from the spec: the step of [removeFilteredGenotypes] for one
    sample: if the filter fails for the sample, its genotype is rewritten;
    an error of the evaluation ends the call. *)
Definition removeFilteredGenotype (f : VariantFilter.t) (name : string)
  : Action unit :=
  (ok <- passes f name;;
   if ok then retA tt else modifyVar (removeGenotype name))%action.

(** Modelled from the spec: [removeFilteredGenotypes], declared in the
    header only: the step above for every sample of the record, in the
    order of its sample names. *)
Definition removeFilteredGenotypes (f : VariantFilter.t) : Action unit :=
  (var <- getVar;;
   forEach (Variant.sampleNames var) (removeFilteredGenotype f))%action.

(** Modelled from the spec: the generic split helper ([split.h]) is
    outside the header; the pieces between the characters [p] accepts,
    empty pieces included. *)
Fixpoint splitOn (p : ascii -> bool) (s : string) : list string :=
  match s with
  | EmptyString => [EmptyString]
  | String c rest =>
      if p c then EmptyString :: splitOn p rest
      else match splitOn p rest with
           | piece :: pieces => String c piece :: pieces
           | [] => [String c EmptyString]
           end
  end.

(** Modelled from the spec: an element of a genotype is the missing
    marker, which is the null allele, or an integer. *)
Definition alleleIndex (genotype element : string) : Outcome Z :=
  if String.eqb element "." then Returns NULL_ALLELE
  else match parsesFully element with
       | Some a => Returns a
       | None => Fails (MalformedGenotype genotype)
       end.

(** Modelled from the spec: one more occurrence of the allele index:
    [++decomposition[a]]. *)
Definition countAllele (a : Z) (decomposition : gmap Z Z) : gmap Z Z :=
  <[a := default 0 (decomposition !! a) + 1]> decomposition.

(** Modelled from the spec: the elements counted from left to right; an
    element that is no allele index fails the decomposition. *)
Fixpoint countAlleles (genotype : string) (elements : list string)
    (decomposition : gmap Z Z) : Outcome (gmap Z Z) :=
  match elements with
  | [] => Returns decomposition
  | element :: rest =>
      (a <- alleleIndex genotype element;;
       countAlleles genotype rest (countAllele a decomposition))%outcome
  end.

(** Modelled from the spec: [decomposeGenotype], declared in the header
    only (section 4.1). *)
Definition decomposeGenotype (genotype : string) : Outcome (gmap Z Z) :=
  countAlleles genotype (splitOn isGenotypeSeparator genotype) ∅.

(** Modelled from the spec: [isHet], declared in the header only: more
    than one distinct key. *)
Definition isHet (genotype : gmap Z Z) : bool := (1 <? size genotype)%nat.

(** Modelled from the spec: [isHom], declared in the header only: exactly
    one distinct key. *)
Definition isHom (genotype : gmap Z Z) : bool := (size genotype =? 1)%nat.

(** Modelled from the spec: [hasNonRef], declared in the header only: a
    key other than 0 and other than the null allele. *)
Definition hasNonRef (genotype : gmap Z Z) : bool :=
  existsb
    (fun entry => negb (fst entry =? 0) && negb (fst entry =? NULL_ALLELE))
    (map_to_list genotype).

(** Modelled from the spec: [isHomRef], declared in the header only. *)
Definition isHomRef (genotype : gmap Z Z) : bool :=
  isHom genotype && bool_decide (is_Some (genotype !! 0)).

(** Modelled from the spec: [isHomNonRef], declared in the header only. *)
Definition isHomNonRef (genotype : gmap Z Z) : bool :=
  isHom genotype && hasNonRef genotype.

(** Modelled from the spec: [isNull], declared in the header only: the
    null allele is a key. *)
Definition isNull (genotype : gmap Z Z) : bool :=
  bool_decide (is_Some (genotype !! NULL_ALLELE)).

(** Modelled from the spec: the ploidy of a decomposition is the sum of
    its counts. *)
Definition ploidy (genotype : gmap Z Z) : Z :=
  map_fold (fun _ count sum => count + sum) 0 genotype.


(** ** The precedence table as the specification words it *)

(** Multiply and divide bind at 8, add and subtract at 7, logical not at
    6, the comparisons at 5, and at 4, or at 3; the parentheses are
    treated as 0; an operand has no precedence. *)
Definition specPrecedence (ty : RuleTokenType) : option Z :=
  match ty with
  | MULTIPLY_OPERATOR | DIVIDE_OPERATOR => Some 8
  | ADD_OPERATOR | SUBTRACT_OPERATOR => Some 7
  | NOT_OPERATOR => Some 6
  | EQUAL_OPERATOR | GREATER_THAN_OPERATOR | LESS_THAN_OPERATOR => Some 5
  | AND_OPERATOR => Some 4
  | OR_OPERATOR => Some 3
  | LEFT_PARENTHESIS | RIGHT_PARENTHESIS => Some 0
  | OPERAND | NUMBER | BOOLEAN_VARIABLE | NUMERIC_VARIABLE
  | STRING_VARIABLE => None
  end.

(** How many of the four classification predicates hold of a token. *)
Definition classCount (token : RuleToken.t) : nat :=
  (Nat.b2n (isOperand token) + Nat.b2n (isOperator token)
   + Nat.b2n (isLeftParenthesis token)
   + Nat.b2n (isRightParenthesis token))%nat.

(** ** Predicates on calls *)

(** The call never ends the process, whatever the record. *)
Definition neverExits {A} (m : Action A) : Prop :=
  forall var, recoverable (fst (m var)) = true.

(** The call leaves the record as it found it, whatever its outcome. *)
Definition readOnly {A} (m : Action A) : Prop :=
  forall var, snd (m var) = var.




(** ** Records and registries used in the scenarios *)

(** A call file with no header text, the given FORMAT registries and the
    given samples. *)
Definition makeCallFile (formatTypes : gmap string VariantFieldType)
    (formatCounts : gmap string Z) (names : list string)
  : VariantCallFile.t :=
  {| VariantCallFile.header := EmptyString;
     VariantCallFile.line := EmptyString;
     VariantCallFile.fileformat := EmptyString;
     VariantCallFile.fileDate := EmptyString;
     VariantCallFile.source := EmptyString;
     VariantCallFile.reference := EmptyString;
     VariantCallFile.phasing := EmptyString;
     VariantCallFile.infoTypes := ∅; VariantCallFile.infoCounts := ∅;
     VariantCallFile.formatTypes := formatTypes;
     VariantCallFile.formatCounts := formatCounts;
     VariantCallFile.sampleNames := names |}.

(** A record at position 1 of [chr1], reference [A], with the given
    alternate alleles, flags, per-sample values and sample names. *)
Definition makeVariant (file : VariantCallFile.t) (alt : list string)
    (flags : gmap string bool)
    (samples : gmap string (gmap string (list string)))
    (names : list string) : Variant.t :=
  {| Variant.vcf := file; Variant.sequenceName := "chr1";
     Variant.position := 1; Variant.id := "."; Variant.ref := "A";
     Variant.alt := alt; Variant.alleles := "A" :: alt;
     Variant.altAlleleIndecies := ∅; Variant.filter := ".";
     Variant.quality := 0%Q; Variant.info := ∅;
     Variant.infoFlags := flags; Variant.format := [];
     Variant.samples := samples; Variant.sampleNames := names;
     Variant.outputSampleNames := names;
     Variant.lastFormat := EmptyString |}.

(** The registry declaring [A], [B] and [C] Boolean, and a record on
    which A is false and B and C are true. *)
Definition registryABC : gmap string VariantFieldType :=
  <["A" := FIELD_BOOL]> (<["B" := FIELD_BOOL]> (<["C" := FIELD_BOOL]> ∅)).


(** ** Valid genotype strings over a three-allele locus *)

(** The elements of a genotype over the alleles 0, 1, 2 and null. *)
Definition isListedAllele (element : string) : bool :=
  String.eqb element "0" || String.eqb element "1" ||
  String.eqb element "2" || String.eqb element ".".

(** The allele index a listed element stands for. *)
Definition listedIndex (element : string) : Z :=
  if String.eqb element "." then NULL_ALLELE
  else if String.eqb element "0" then 0
  else if String.eqb element "1" then 1
  else 2.

(** A separator followed by a listed element. *)
Definition isListedStep (more : ascii * string) : bool :=
  isGenotypeSeparator (fst more) && isListedAllele (snd more).

(** The genotype string made of a first element and of the elements that
    follow it, each behind its separator. *)
Fixpoint genotypeString (first : string) (rest : list (ascii * string))
  : string :=
  match rest with
  | [] => first
  | (separator, element) :: more =>
      (first ++ String separator (genotypeString element more))%string
  end.

(** How many of the elements are the missing marker. *)
Definition missingMarkers (elements : list string) : nat :=
  length (List.filter (fun element => String.eqb element ".") elements).

(** The registry declaring [AF] a float, one value per alternate allele,
    and a record with two alternate alleles on which the sample [S1]
    carries the values 0.1 and 0.9, with the genotype 1/2. *)
Definition registryAF : gmap string VariantFieldType :=
  <["AF" := FIELD_FLOAT]> ∅.

Definition callFileAF : VariantCallFile.t :=
  makeCallFile registryAF (<["AF" := ALLELE_NUMBER]> ∅) ["S1"].

Definition recordAF : Variant.t :=
  makeVariant callFileAF ["T"; "G"] ∅
    (<["S1" := <["AF" := ["0.1"; "0.9"]]> (<["GT" := ["1/2"]]> ∅)]> ∅)
    ["S1"].

(** The two records differ at most in what they store for the sample
    [name]. *)
Definition sameOutside (name : string) (v w : Variant.t) : Prop :=
  w = Variant.set_samples (Variant.samples w) v /\
  forall other, other <> name ->
                Variant.samples v !! other = Variant.samples w !! other.

(** The outcome of the call depends on no sample's values but those of
    [sample], when there is one. *)
Definition localTo {A} (sample : option string) (m : Action A) : Prop :=
  forall name v w,
    Some name <> sample -> sameOutside name v w -> fst (m v) = fst (m w).

(** On this record, [removeFilteredGenotypes] has nothing left to do for
    the sample: its step leaves the record as it is. *)
Definition settled (f : VariantFilter.t) (var : Variant.t) (name : string)
  : Prop :=
  snd (removeFilteredGenotype f name var) = var.

(** The registry declaring [DP] an integer and [FILTER] a string, and a
    record whose sample [S1] carries the given depth. *)
Definition registryDP : gmap string VariantFieldType :=
  <["DP" := FIELD_INTEGER]> (<["FILTER" := FIELD_STRING]> ∅).

Definition recordDP (depth : string) : Variant.t :=
  makeVariant (makeCallFile registryDP ∅ ["S1"]) ["T"] ∅
    (<["S1" := <["DP" := [depth]]> (<["GT" := ["0/1"]]> ∅)]> ∅)
    ["S1"].

(** The token types of a compiled filter, in evaluation order. *)
Definition ruleTypes (compiled : Outcome VariantFilter.t)
  : Outcome (list RuleTokenType) :=
  (f <- compiled;;
   Returns (map RuleToken.type (VariantFilter.rules f)))%outcome.

(** The verdict of a sample-kind filter spec on a sample of a record. *)
Definition specPasses (filterspec : string)
    (variables : gmap string VariantFieldType) (sample : string)
    (var : Variant.t) : Outcome bool :=
  (f <- newVariantFilter filterspec VariantFilter.SAMPLE variables;;
   fst (passes f sample var))%outcome.

(** ** Further definitions for the properties of the header's functions *)

(** Either parenthesis. *)
Definition isParenthesis (token : RuleToken.t) : bool :=
  isLeftParenthesis token || isRightParenthesis token.

(** The letters, the digits, the underscore and the decimal point: the
    characters of field names and of unsigned decimal literals. *)
Definition isWordChar (c : ascii) : bool :=
  let n := nat_of_ascii c in
  ((48 <=? n) && (n <=? 57) || (65 <=? n) && (n <=? 90)
   || (97 <=? n) && (n <=? 122) || (n =? 95) || (n =? 46))%nat.

(** Every character of the string satisfies [p]. *)
Fixpoint allChars (p : ascii -> bool) (s : string) : bool :=
  match s with
  | EmptyString => true
  | String c rest => p c && allChars p rest
  end.

(** The strings of a list, one after the other. *)
Fixpoint catenate (pieces : list string) : string :=
  match pieces with
  | [] => EmptyString
  | piece :: rest => (piece ++ catenate rest)%string
  end.

(** The string without its white-space characters. *)
Fixpoint stripSpace (s : string) : string :=
  match s with
  | EmptyString => EmptyString
  | String c rest =>
      if isspace c then stripSpace rest else String c (stripSpace rest)
  end.

(** A character that can stand in an operand lexeme: no operator
    character, no parenthesis, no white space. *)
Definition isOperandChar (c : ascii) : bool :=
  negb (isOperatorChar c || isParanChar c || isspace c).

(** A well-formed lexeme: one operator or parenthesis character, or a
    non-empty run of operand characters. *)
Definition isLexeme (lexeme : string) : bool :=
  match lexeme with
  | EmptyString => false
  | String c EmptyString =>
      isOperatorChar c || isParanChar c || isOperandChar c
  | _ => allChars isOperandChar lexeme
  end.

(** The operator stack of the parser holds left parentheses and
    operators only. *)
Definition wellStacked (operators : list RuleToken.t) : Prop :=
  Forall (fun token => isOperand token = false /\
                       isRightParenthesis token = false) operators.

(** How many left parentheses are open on the operator stack. *)
Definition leftParentheses (operators : list RuleToken.t) : nat :=
  length (List.filter isLeftParenthesis operators).

(** The parentheses of a token sequence match, [depth] of them being
    open at its start: no right parenthesis comes without an open left
    one, and none is left open at the end. *)
Fixpoint parenthesesBalanced (depth : nat) (tokens : list RuleToken.t)
  : bool :=
  match tokens with
  | [] => (depth =? 0)%nat
  | token :: rest =>
      if isLeftParenthesis token then parenthesesBalanced (S depth) rest
      else if isRightParenthesis token then
        match depth with
        | O => false
        | S depth' => parenthesesBalanced depth' rest
        end
      else parenthesesBalanced depth rest
  end.

(** The tokens that are no parentheses. *)
Definition withoutParentheses (tokens : list RuleToken.t)
  : list RuleToken.t :=
  List.filter (fun token => negb (isParenthesis token)) tokens.

(** A binary operator: any operator but logical not. *)
Definition isBinaryOperator (token : RuleToken.t) : bool :=
  isOperator token && negb (type_is token NOT_OPERATOR).

(** ** Opening a call file

    The members of [VariantCallFile] that the [open] functions set, and
    the record of the other members.  [parseHeader] and the split helper
    are declared outside the header and are parameters here; a function
    that reaches no [return] statement, or takes [back()] of an empty
    vector, has no defined behaviour. *)

Inductive InputStream : Type :=
  | OwnFile               (* [&_file] *)
  | SuppliedStream.       (* the stream handed to [open] *)

Record OpenState : Type :=
  { file : option InputStream
  ; tabixFile : option string       (* the name the Tabix object was made for *)
  ; usingTabix : bool
  ; ownFile : option string         (* the name [_file] was opened on *)
  ; parsedHeader : bool
  ; members : VariantCallFile.t
  }.

Inductive Behaviour (A : Type) : Type :=
  | Defined (a : A)
  | Undefined.

Arguments Defined {A} a.
Arguments Undefined {A}.

Section OpenCallFile.

Variable split : string -> string -> list string.
Variable parseHeader : OpenState -> bool * OpenState.
Variable parseHeaderText : string -> OpenState -> bool * OpenState.

(** [parsedHeader = parseHeader(); return parsedHeader;] *)
Definition parseAndRecord (st : OpenState) : bool * OpenState :=
  let '(parsed, st') := parseHeader st in
  (parsed,
   {| file := file st'; tabixFile := tabixFile st';
      usingTabix := usingTabix st'; ownFile := ownFile st';
      parsedHeader := parsed; members := members st' |}).

Definition openFile (filename : string) (st : OpenState)
  : bool * OpenState :=
  parseAndRecord
    {| file := Some OwnFile; tabixFile := tabixFile st;
       usingTabix := false; ownFile := Some filename;
       parsedHeader := parsedHeader st; members := members st |}.

Definition openTabix (filename : string) (st : OpenState)
  : bool * OpenState :=
  parseAndRecord
    {| file := file st; tabixFile := Some filename;
       usingTabix := true; ownFile := ownFile st;
       parsedHeader := parsedHeader st; members := members st |}.

(** [open(string& filename)] *)
Definition open (filename : string) (st : OpenState)
  : Behaviour (bool * OpenState) :=
  match last (split filename ".") with
  | None => Undefined
  | Some extension =>
      if String.eqb extension "vcf" then Defined (openFile filename st)
      else if String.eqb extension "gz" || String.eqb extension "bgz"
      then Defined (openTabix filename st)
      else Undefined
  end.

(** [open(istream& stream)] and [open(ifstream& stream)] *)
Definition openStream (st : OpenState) : bool * OpenState :=
  parseAndRecord
    {| file := Some SuppliedStream; tabixFile := tabixFile st;
       usingTabix := false; ownFile := ownFile st;
       parsedHeader := parsedHeader st; members := members st |}.

Definition openForOutput (headerStr : string) (st : OpenState)
  : bool * OpenState :=
  let '(parsed, st') := parseHeaderText headerStr st in
  (parsed,
   {| file := file st'; tabixFile := tabixFile st';
      usingTabix := usingTabix st'; ownFile := ownFile st';
      parsedHeader := parsed; members := members st' |}).

End OpenCallFile.

Definition is_open (st : OpenState) : bool := parsedHeader st.

(** The extensions [open] knows. *)
Definition isKnownExtension (extension : string) : bool :=
  String.eqb extension "vcf" || String.eqb extension "gz"
  || String.eqb extension "bgz".

(** The values the record stores for a key of a sample, if any. *)
Definition sampleValue (var : Variant.t) (name key : string)
  : option (list string) :=
  Variant.samples var !! name ≫= (fun fields => fields !! key).

(** [var'] is [var] with some genotype fields rewritten to missing and
    nothing else changed: the members other than the per-sample store
    are the same, the same samples are stored, every field other than
    the genotype is as it was, and a genotype is as it was or is its
    all-missing form; samples outside [names] are as they were. *)
Definition genotypesRemoved (names : list string) (var var' : Variant.t)
  : Prop :=
  var' = Variant.set_samples (Variant.samples var') var /\
  (forall name,
     is_Some (Variant.samples var' !! name)
     <-> is_Some (Variant.samples var !! name)) /\
  (forall name key,
     key <> "GT" -> sampleValue var' name key = sampleValue var name key) /\
  (forall name,
     sampleValue var' name "GT" = sampleValue var name "GT" \/
     sampleValue var' name "GT"
     = map missingGenotype <$> sampleValue var name "GT") /\
  (forall name,
     ~ In name names ->
     Variant.samples var' !! name = Variant.samples var !! name).

(** ** Expressions

    The expressions a filter spec can denote: an operand, the negation
    of an expression, and a binary operator between two expressions,
    each carrying the token it is written with. *)

Inductive Expression : Type :=
  | Operand (token : RuleToken.t)
  | Negation (operator : RuleToken.t) (e : Expression)
  | Binary (operator : RuleToken.t) (lhs rhs : Expression).

(** The tokens are of the right classes. *)
Fixpoint wellFormed (e : Expression) : bool :=
  match e with
  | Operand token => isOperand token
  | Negation operator e' =>
      (isOperator operator && type_is operator NOT_OPERATOR) && wellFormed e'
  | Binary operator lhs rhs =>
      isBinaryOperator operator && wellFormed lhs && wellFormed rhs
  end.

Definition leftParenthesisToken : RuleToken.t :=
  operatorToken LEFT_PARENTHESIS "(".

Definition rightParenthesisToken : RuleToken.t :=
  operatorToken RIGHT_PARENTHESIS ")".

(** The infix token sequence of an expression with every operator
    application in parentheses. *)
Fixpoint infix (e : Expression) : list RuleToken.t :=
  match e with
  | Operand token => [token]
  | Negation operator e' =>
      [leftParenthesisToken; operator] ++ infix e' ++ [rightParenthesisToken]
  | Binary operator lhs rhs =>
      [leftParenthesisToken] ++ infix lhs ++ [operator] ++ infix rhs
        ++ [rightParenthesisToken]
  end.

(** Its postfix sequence: every operator after its operands. *)
Fixpoint postfix (e : Expression) : list RuleToken.t :=
  match e with
  | Operand token => [token]
  | Negation operator e' => postfix e' ++ [operator]
  | Binary operator lhs rhs => postfix lhs ++ postfix rhs ++ [operator]
  end.

(** The value of an expression in a context: operands are resolved;
    negation wants a Boolean; a binary operator is applied to the value
    of its left and of its right operand, the left one being evaluated
    first; the first error ends the evaluation. *)
Fixpoint value (e : Expression) (sample : option string) (index : Z)
  : Action RuleToken.t :=
  match e with
  | Operand token => resolve token sample index
  | Negation _ e' =>
      (v <- value e' sample index;;
       liftO (if isBoolean v
              then Returns (booleanOperand (negb (RuleToken.state v)))
              else Fails TypeMismatch))%action
  | Binary operator lhs rhs =>
      (l <- value lhs sample index;;
       r <- value rhs sample index;;
       liftO (applyBinary operator l r))%action
  end.

(** The expression 1 + (2 * 3). *)
Definition onePlusTwoTimesThree : Expression :=
  Binary (operatorToken ADD_OPERATOR "+")
    (Operand (numberToken "1" 1))
    (Binary (operatorToken MULTIPLY_OPERATOR "*")
       (Operand (numberToken "2" 2)) (Operand (numberToken "3" 3))).

(** The last character of a string, if it has one. *)
Fixpoint lastChar (s : string) : option ascii :=
  match s with
  | EmptyString => None
  | String c EmptyString => Some c
  | String _ rest => lastChar rest
  end.

(** A character a fully read number can end with: a digit or the decimal
    point. *)
Definition endsNumber (c : ascii) : bool := isdigit c || (c =? ".")%char.

(** A character a number can begin with: a digit, a sign or the decimal
    point. *)
Definition startsNumber (c : ascii) : bool :=
  isdigit c || (c =? "+")%char || (c =? "-")%char || (c =? ".")%char.

(** * Properties *)

(** ** Token classification *)

Ltac by_token_type token :=
  destruct token as [ty ? ? ? ? ?]; destruct ty; cbn.

(** C2: on every operator token and on both parentheses [priority]
    returns the fixed precedence of the specification: 8 for multiply and
    divide, 7 for add and subtract, 6 for logical not, 5 for equal,
    greater-than and less-than, 4 for and, 3 for or, 0 for the
    parentheses; and it returns nothing else. *)
Theorem priority_returns_spec_precedence :
  forall (token : RuleToken.t) (n : Z),
    specPrecedence (RuleToken.type token) = Some n <->
    priority token = Returns n.
Proof.
  intros token n.
  by_token_type token; split; intros H; try discriminate H;
    injection H as <-; reflexivity.
Qed.

(** C4: [isRightAssociative] holds of exactly the logical-not operator
    and the left parenthesis, [isLeftAssociative] of every other token,
    the right parenthesis included, and the two are complements. *)
Theorem associativity_classification :
  forall token : RuleToken.t,
    (isRightAssociative token = true <->
       RuleToken.type token = NOT_OPERATOR \/
       RuleToken.type token = LEFT_PARENTHESIS) /\
    (isLeftAssociative token = true <->
       RuleToken.type token <> NOT_OPERATOR /\
       RuleToken.type token <> LEFT_PARENTHESIS) /\
    isLeftAssociative token = negb (isRightAssociative token).
Proof.
  intros token.
  by_token_type token; intuition (discriminate || congruence).
Qed.

(** C10: every token satisfies exactly one of [isOperand], [isOperator],
    [isLeftParenthesis] and [isRightParenthesis]: the five operand kinds
    only the first, the ten operator kinds only the second, and each
    parenthesis only its own predicate. *)
Theorem token_classes_partition :
  forall token : RuleToken.t,
    classCount token = 1%nat /\
    (isOperand token, isOperator token,
     isLeftParenthesis token, isRightParenthesis token) =
    match RuleToken.type token with
    | OPERAND | NUMBER | BOOLEAN_VARIABLE | NUMERIC_VARIABLE
    | STRING_VARIABLE => (true, false, false, false)
    | AND_OPERATOR | OR_OPERATOR | ADD_OPERATOR | SUBTRACT_OPERATOR
    | MULTIPLY_OPERATOR | DIVIDE_OPERATOR | NOT_OPERATOR | EQUAL_OPERATOR
    | GREATER_THAN_OPERATOR | LESS_THAN_OPERATOR => (false, true, false, false)
    | LEFT_PARENTHESIS => (false, false, true, false)
    | RIGHT_PARENTHESIS => (false, false, false, true)
    end.
Proof.
  intros token. by_token_type token; split; reflexivity.
Qed.

(** ** Which calls can end the process *)


Lemma priority_of_non_operand (token : RuleToken.t) :
  isOperand token = false -> exists n, priority token = Returns n.
Proof.
  by_token_type token; intros H; try discriminate H; eexists; reflexivity.
Qed.

Lemma recoverable_bindO {A B} (m : Outcome A) (k : A -> Outcome B) :
  recoverable m = true ->
  (forall a, m = Returns a -> recoverable (k a) = true) ->
  recoverable (bindO m k) = true.
Proof.
  destruct m as [a | e | st msg]; cbn; intros Hm Hk;
    [apply Hk; reflexivity | reflexivity | discriminate Hm].
Qed.

Lemma classifyOperand_recoverable lexeme variables :
  recoverable (classifyOperand lexeme variables) = true.
Proof.
  unfold classifyOperand.
  destruct (variables !! lexeme); [reflexivity |].
  destruct (parsesFully lexeme) as [x |]; reflexivity.
Qed.

Lemma makeRuleToken_recoverable token variables :
  recoverable (makeRuleToken token variables) = true.
Proof.
  unfold makeRuleToken.
  destruct token as [| c [| c' rest]]; try apply classifyOperand_recoverable.
  destruct (operatorType c); [reflexivity | apply classifyOperand_recoverable].
Qed.

Lemma makeRuleTokens_recoverable lexemes variables :
  recoverable (makeRuleTokens lexemes variables) = true.
Proof.
  induction lexemes as [| lexeme rest IH]; cbn; [reflexivity |].
  apply recoverable_bindO; [apply makeRuleToken_recoverable |].
  intros token _. apply recoverable_bindO; [exact IH | reflexivity].
Qed.







(** *** Calls on the record: how outcomes and the record compose *)

Create HintDb actions.

Section ActionLaws.

Context {A B : Type}.

Lemma neverExits_retA (a : A) : neverExits (retA a).
Proof. intros var. reflexivity. Qed.

Lemma neverExits_liftO (o : Outcome A) :
  recoverable o = true -> neverExits (liftO o).
Proof. intros Ho var. exact Ho. Qed.

Lemma neverExits_bindA (m : Action A) (k : A -> Action B) :
  neverExits m -> (forall a, neverExits (k a)) -> neverExits (bindA m k).
Proof.
  intros Hm Hk var. unfold bindA. specialize (Hm var).
  destruct (m var) as [[a | e | st msg] var']; cbn in *;
    [apply Hk | reflexivity | discriminate Hm].
Qed.

Lemma readOnly_retA (a : A) : readOnly (retA a).
Proof. intros var. reflexivity. Qed.

Lemma readOnly_liftO (o : Outcome A) : readOnly (liftO o).
Proof. intros var. reflexivity. Qed.

Lemma readOnly_bindA (m : Action A) (k : A -> Action B) :
  readOnly m -> (forall a, readOnly (k a)) -> readOnly (bindA m k).
Proof.
  intros Hm Hk var. unfold bindA. specialize (Hm var).
  destruct (m var) as [[a | e | st msg] var']; cbn in *; subst var';
    [apply Hk | reflexivity | reflexivity].
Qed.

End ActionLaws.

Lemma neverExits_getVar : neverExits getVar.
Proof. intros var. reflexivity. Qed.

Lemma readOnly_getVar : readOnly getVar.
Proof. intros var. reflexivity. Qed.

Lemma neverExits_modifyVar f : neverExits (modifyVar f).
Proof. intros var. reflexivity. Qed.

#[local] Hint Resolve neverExits_retA neverExits_getVar neverExits_modifyVar
  readOnly_retA readOnly_getVar readOnly_liftO : actions.

(** Goes through a call built from [bindA], [retA], [liftO] and case
    distinctions, leaving what the hints do not settle. *)
Ltac action_auto :=
  repeat first
    [ progress intros
    | solve [auto with actions]
    | apply neverExits_bindA
    | apply readOnly_bindA
    | apply neverExits_liftO
    | match goal with
      | |- neverExits (match ?x with _ => _ end) => destruct x
      | |- readOnly (match ?x with _ => _ end) => destruct x
      | |- recoverable (match ?x with _ => _ end) = true => destruct x
      | |- recoverable (bindO _ _) = true => apply recoverable_bindO
      end
    | reflexivity ].

Lemma valueAt_recoverable key values index :
  recoverable (valueAt key values index) = true.
Proof. unfold valueAt. action_auto. Qed.

Lemma convertValue_recoverable {T} `{NumberSyntax T} raw :
  recoverable (convertValue (T := T) raw) = true.
Proof.
  unfold convertValue. destruct (parsesFully raw) as [v |]; reflexivity.
Qed.

#[local] Hint Resolve valueAt_recoverable convertValue_recoverable : actions.

Lemma getValueString_neverExits key sample index :
  neverExits (getValueString key sample index).
Proof.
  unfold getValueString, getSampleValueString, getInfoValueString.
  action_auto.
Qed.

Lemma getValueFloat_neverExits key sample index :
  neverExits (getValueFloat key sample index).
Proof.
  unfold getValueFloat, getSampleValueFloat, getInfoValueFloat,
    getSampleValueString, getInfoValueString.
  action_auto.
Qed.

Lemma getValueBool_neverExits key sample index :
  neverExits (getValueBool key sample index).
Proof.
  unfold getValueBool, getSampleValueBool, getInfoValueBool,
    getSampleValueString.
  action_auto.
Qed.

Lemma getValueString_readOnly key sample index :
  readOnly (getValueString key sample index).
Proof.
  unfold getValueString, getSampleValueString, getInfoValueString.
  action_auto.
Qed.

Lemma getValueFloat_readOnly key sample index :
  readOnly (getValueFloat key sample index).
Proof.
  unfold getValueFloat, getSampleValueFloat, getInfoValueFloat,
    getSampleValueString, getInfoValueString.
  action_auto.
Qed.

Lemma getValueBool_readOnly key sample index :
  readOnly (getValueBool key sample index).
Proof.
  unfold getValueBool, getSampleValueBool, getInfoValueBool,
    getSampleValueString.
  action_auto.
Qed.

#[local] Hint Resolve getValueString_neverExits getValueFloat_neverExits
  getValueBool_neverExits getValueString_readOnly getValueFloat_readOnly
  getValueBool_readOnly : actions.

Lemma resolve_neverExits token sample index :
  neverExits (resolve token sample index).
Proof. unfold resolve. action_auto. Qed.

Lemma resolve_readOnly token sample index :
  readOnly (resolve token sample index).
Proof. unfold resolve. action_auto. Qed.

Lemma applyBinary_recoverable op lhs rhs :
  recoverable (applyBinary op lhs rhs) = true.
Proof. unfold applyBinary. action_auto. Qed.

Lemma applyOperator_recoverable op results :
  recoverable (applyOperator op results) = true.
Proof.
  unfold applyOperator. action_auto; apply applyBinary_recoverable.
Qed.

#[local] Hint Resolve resolve_neverExits resolve_readOnly
  applyOperator_recoverable : actions.

Lemma evaluateToken_neverExits token sample index results :
  neverExits (evaluateToken token sample index results).
Proof. unfold evaluateToken. action_auto. Qed.

Lemma evaluateToken_readOnly token sample index results :
  readOnly (evaluateToken token sample index results).
Proof. unfold evaluateToken. action_auto. Qed.

#[local] Hint Resolve evaluateToken_neverExits evaluateToken_readOnly
  : actions.

Lemma evaluateRules_neverExits rules sample index results :
  neverExits (evaluateRules rules sample index results).
Proof.
  revert results.
  induction rules as [| token rest IH]; intros results; cbn; action_auto.
Qed.

Lemma evaluateRules_readOnly rules sample index results :
  readOnly (evaluateRules rules sample index results).
Proof.
  revert results.
  induction rules as [| token rest IH]; intros results; cbn; action_auto.
Qed.

#[local] Hint Resolve evaluateRules_neverExits evaluateRules_readOnly
  : actions.

Lemma evaluate_neverExits f sample index : neverExits (evaluate f sample index).
Proof. unfold evaluate, finalOperand. action_auto. Qed.

Lemma evaluate_readOnly f sample index : readOnly (evaluate f sample index).
Proof. unfold evaluate. action_auto. Qed.

#[local] Hint Resolve evaluate_neverExits evaluate_readOnly : actions.

Lemma passesRecord_neverExits f : neverExits (passesRecord f).
Proof. unfold passesRecord, verdict. action_auto. Qed.

Lemma passesRecord_readOnly f : readOnly (passesRecord f).
Proof. unfold passesRecord. action_auto. Qed.

Lemma passesAllele_neverExits f sample index :
  neverExits (passesAllele f sample index).
Proof. unfold passesAllele, verdict. action_auto. Qed.

Lemma passesAllele_readOnly f sample index :
  readOnly (passesAllele f sample index).
Proof. unfold passesAllele. action_auto. Qed.

#[local] Hint Resolve passesAllele_neverExits passesAllele_readOnly : actions.

Lemma allPass_neverExits f sample indices : neverExits (allPass f sample indices).
Proof. induction indices as [| index rest IH]; cbn; action_auto. Qed.

Lemma allPass_readOnly f sample indices : readOnly (allPass f sample indices).
Proof. induction indices as [| index rest IH]; cbn; action_auto. Qed.

#[local] Hint Resolve allPass_neverExits allPass_readOnly : actions.

Lemma passes_neverExits f sample : neverExits (passes f sample).
Proof. unfold passes. action_auto. Qed.

Lemma passes_readOnly f sample : readOnly (passes f sample).
Proof. unfold passes. action_auto. Qed.

#[local] Hint Resolve passes_neverExits passes_readOnly : actions.

Lemma forEach_neverExits {A} (l : list A) body :
  (forall x, neverExits (body x)) -> neverExits (forEach l body).
Proof. intros Hbody. induction l as [| x rest IH]; cbn; action_auto. Qed.

Lemma removeFilteredGenotypes_neverExits f :
  neverExits (removeFilteredGenotypes f).
Proof.
  unfold removeFilteredGenotypes. action_auto.
  apply forEach_neverExits. intros name.
  unfold removeFilteredGenotype. action_auto.
Qed.

Lemma alleleIndex_recoverable genotype element :
  recoverable (alleleIndex genotype element) = true.
Proof.
  unfold alleleIndex. destruct (String.eqb element "."); [reflexivity |].
  destruct (parsesFully element) as [a |]; reflexivity.
Qed.

Lemma countAlleles_recoverable genotype elements decomposition :
  recoverable (countAlleles genotype elements decomposition) = true.
Proof.
  revert decomposition.
  induction elements as [| element rest IH]; intros decomposition; cbn;
    [reflexivity |].
  apply recoverable_bindO; [apply alleleIndex_recoverable | intros a _; apply IH].
Qed.


(** ** [convert] and the classification of operands *)

Lemma length_append s t :
  String.length (s ++ t) = (String.length s + String.length t)%nat.
Proof.
  induction s as [| c rest IH]; cbv [String.append]; fold String.append;
    cbn; [reflexivity | rewrite IH; reflexivity].
Qed.

Lemma span_eq p s :
  s = (fst (span p s) ++ snd (span p s))%string /\
  allChars p (fst (span p s)) = true.
Proof.
  induction s as [| c rest IH]; cbn [span]; [split; reflexivity |].
  destruct (p c) eqn:Hc; [| split; reflexivity].
  destruct (span p rest) as [taken remaining]. cbn [fst snd] in *.
  destruct IH as [Heq Hall]. cbv [String.append]; fold String.append.
  cbn [allChars]. rewrite Hc, Hall. split; [f_equal; exact Heq | reflexivity].
Qed.

Lemma span_length p s :
  String.length s
  = (String.length (fst (span p s)) + String.length (snd (span p s)))%nat.
Proof.
  destruct (span_eq p s) as [Hs _]. rewrite Hs at 1. apply length_append.
Qed.

Lemma scanSign_length s :
  String.length s
  = (snd (fst (scanSign s)) + String.length (snd (scanSign s)))%nat.
Proof.
  destruct s as [| c rest]; cbn; [reflexivity |].
  destruct (c =? "-")%char; [reflexivity |].
  destruct (c =? "+")%char; reflexivity.
Qed.

Lemma scanExponent_length s : (snd (scanExponent s) <= String.length s)%nat.
Proof.
  destruct s as [| c rest]; cbn; [lia |].
  destruct ((c =? "e")%char || (c =? "E")%char); cbn; [| lia].
  pose proof (scanSign_length rest) as Hsign.
  destruct (scanSign rest) as [[negative nsign] s1]; cbn in Hsign.
  pose proof (span_length isdigit s1) as Hdigits.
  destruct (span isdigit s1) as [digits s2]; cbn in Hdigits.
  destruct (String.length digits =? 0)%nat; cbn; lia.
Qed.

Lemma to_size_t_minus_one : to_size_t (-1) = 2 ^ 64 - 1.
Proof. reflexivity. Qed.

Section ConvertAnswer.

Context {T : Type} `{Extraction T}.

(** What is in [r] after [convert]: [r] itself when the text is blank,
    and otherwise what [num_get] stored, whether or not it failed. *)
Lemma convert_stored (s : string) (r : T) :
  snd (convert s r)
  = match snd (span isspace s) with
    | EmptyString => r
    | String c rest => fst (fst (num_get (String c rest)))
    end.
Proof.
  unfold convert, extract, open_istringstream, good.
  cbn [failbit eofbit orb negb gpos content dropChars].
  destruct (span isspace s) as [ws [| c rest]]; cbn [snd]; [reflexivity |].
  destruct (num_get (String c rest)) as [[v failed] n]. reflexivity.
Qed.

(** [convert] answers true only in one situation: the extraction
    succeeded, and either it ran into the end of the text, [tellg] is
    [-1], and the size of the text is [-1] as a [size_t], or it stopped
    before the end at a position that is the size as a [size_t]. *)
Lemma convert_true (s : string) (r : T) :
  fst (convert s r) = true ->
  exists ws c rest v n,
    span isspace s = (ws, String c rest) /\
    num_get (String c rest) = (v, false, n) /\
    ((String.length (String c rest) <= n)%nat /\
     to_size_t (-1) = to_size_t (Z.of_nat (String.length s)) \/
     (n < String.length (String c rest))%nat /\
     to_size_t (Z.of_nat (String.length ws + n))
     = to_size_t (Z.of_nat (String.length s))).
Proof.
  unfold convert, extract, open_istringstream, good.
  cbn [failbit eofbit orb negb gpos content dropChars Nat.add].
  destruct (span isspace s) as [ws [| c rest]] eqn:Hspan;
    [discriminate |].
  destruct (num_get (String c rest)) as [[v failed] n] eqn:Hget.
  unfold tellg, good, fail. cbn [fst snd failbit eofbit gpos].
  destruct failed; [discriminate |]. cbn [orb].
  destruct (Nat.leb_spec (String.length (String c rest)) n) as [Hle | Hlt];
    cbn [negb setFailbit failbit gpos fst];
    intros Hflag; exists ws, c, rest, v, n;
    (split; [reflexivity |]); (split; [exact Hget |]).
  - left. split; [exact Hle |].
    destruct (Z.eqb_spec (to_size_t (-1))
                (to_size_t (Z.of_nat (String.length s)))) as [Heq | Hne];
      [exact Heq | discriminate Hflag].
  - right. split; [exact Hlt |].
    rewrite Nat.min_l in Hflag by lia.
    destruct (Z.eqb_spec (to_size_t (Z.of_nat (String.length ws + n)))
                (to_size_t (Z.of_nat (String.length s)))) as [Heq | Hne];
      [exact Heq | discriminate Hflag].
Qed.

(** On a text that a [size_t] can measure, the second situation does
    not occur: a true answer takes a text of [2^64 - 1] characters, read
    to its end. *)
Lemma convert_true_size (s : string) (r : T) :
  Z.of_nat (String.length s) < 2 ^ 64 ->
  fst (convert s r) = true ->
  Z.of_nat (String.length s) = 2 ^ 64 - 1 /\
  exists ws c rest v n,
    s = (ws ++ String c rest)%string /\
    num_get (String c rest) = (v, false, n) /\
    (String.length (String c rest) <= n)%nat.
Proof.
  intros Hsize Htrue.
  destruct (convert_true s r Htrue) as (ws & c & rest & v & n & Hspan & Hget & Hpos).
  destruct (span_eq isspace s) as [Hs _]. rewrite Hspan in Hs. cbn [fst snd] in Hs.
  pose proof (f_equal String.length Hs) as Hlen. rewrite length_append in Hlen.
  destruct Hpos as [[Hle Heq] | [Hlt Heq]].
  - split.
    + rewrite to_size_t_minus_one in Heq. unfold to_size_t in Heq.
      rewrite Z.mod_small in Heq by lia. lia.
    + exists ws, c, rest, v, n. split; [exact Hs |]. split; assumption.
  - exfalso. unfold to_size_t in Heq.
    rewrite !Z.mod_small in Heq by lia. lia.
Qed.

(** The answer is never true on a text of fewer characters. *)
Lemma convert_false (s : string) (r : T) :
  Z.of_nat (String.length s) < 2 ^ 64 - 1 ->
  fst (convert s r) = false.
Proof.
  intros Hsize. destruct (fst (convert s r)) eqn:Hflag; [| reflexivity].
  destruct (convert_true_size s r ltac:(lia) Hflag) as [Hlen _]. lia.
Qed.

End ConvertAnswer.


Lemma makeRuleToken_fails token variables e :
  makeRuleToken token variables = Fails e -> e = SyntaxError token.
Proof.
  assert (Hclassify :
    classifyOperand token variables = Fails e -> e = SyntaxError token).
  { unfold classifyOperand. destruct (variables !! token); [discriminate |].
    destruct (parsesFully token) as [x |]; [discriminate |].
    intros [= <-]. reflexivity. }
  unfold makeRuleToken.
  destruct token as [| c [| c' rest]]; try exact Hclassify.
  destruct (operatorType c); [discriminate | exact Hclassify].
Qed.


(** C6: the code does not do what the claim, and the comment over
    [convert], say.  [convert] does not answer true when the whole text
    is consumed by a successful conversion: on a text of fewer than
    [2^64 - 1] characters it answers false whatever the text, for an
    [int], a [double] and a [bool].  When the extraction has read the
    last character it has run into the end of the buffer, and [tellg]
    then answers [-1], which is not the size. *)
Theorem convert_never_answers_true :
  forall s : string,
    Z.of_nat (String.length s) < 2 ^ 64 - 1 ->
    (forall r : Z, fst (convert s r) = false) /\
    (forall r : Q, fst (convert s r) = false) /\
    (forall r : bool, fst (convert s r) = false).
Proof.
  intros s Hsize. split; [| split]; intros r; apply convert_false, Hsize.
Qed.

(** The theorem at the lexeme [0.5]: the whole of it is read and the
    number one half is stored, and the answer is false. *)
Lemma convert_never_answers_true_witness :
  Z.of_nat (String.length "0.5") < 2 ^ 64 - 1 /\
  fst (convert "0.5" 0%Q) = false /\
  snd (convert "0.5" 0%Q) = (1 # 2)%Q /\
  gpos (fst (extract (open_istringstream "0.5") 0%Q)) = 3%nat.
Proof.
  split; [reflexivity |]. split; [| split; reflexivity].
  exact (proj1 (proj2 (convert_never_answers_true "0.5" eq_refl)) 0%Q).
Defined.

(** ** Precedence and parentheses *)


(** ** Genotype decomposition *)

Lemma ploidy_countAllele a decomposition :
  ploidy (countAllele a decomposition) = ploidy decomposition + 1.
Proof.
  unfold ploidy, countAllele.
  destruct (decomposition !! a) as [count |] eqn:Ha; cbn.
  - rewrite <- insert_delete_eq.
    rewrite map_fold_insert_L; [| intros; lia | apply lookup_delete_eq].
    rewrite (map_fold_delete_L _ _ a count decomposition);
      [lia | intros; lia | exact Ha].
  - rewrite map_fold_insert_L; [lia | intros; lia | exact Ha].
Qed.

Lemma lookup_countAllele a b decomposition :
  default 0 (countAllele a decomposition !! b)
  = default 0 (decomposition !! b) + (if decide (a = b) then 1 else 0).
Proof.
  unfold countAllele. destruct (decide (a = b)) as [-> | Hne].
  - rewrite lookup_insert_eq. reflexivity.
  - rewrite lookup_insert_ne by exact Hne. lia.
Qed.

Lemma alleleIndex_listed genotype element :
  isListedAllele element = true ->
  alleleIndex genotype element = Returns (listedIndex element).
Proof.
  unfold isListedAllele. rewrite !orb_true_iff, !String.eqb_eq.
  intros [[[-> | ->] | ->] | ->]; reflexivity.
Qed.

Lemma listedIndex_null element :
  isListedAllele element = true ->
  (listedIndex element = NULL_ALLELE <-> element = ".").
Proof.
  unfold isListedAllele. rewrite !orb_true_iff, !String.eqb_eq.
  intros [[[-> | ->] | ->] | ->]; cbn; split; (discriminate || reflexivity).
Qed.

(** Counting listed elements into a decomposition: it succeeds, adds one
    to the ploidy for each element and one to the null allele's count for
    each missing marker, and leaves a decomposition that is not empty. *)
Lemma countAlleles_listed genotype elements decomposition :
  forallb isListedAllele elements = true ->
  exists m,
    countAlleles genotype elements decomposition = Returns m /\
    ploidy m = ploidy decomposition + Z.of_nat (length elements) /\
    default 0 (m !! NULL_ALLELE)
    = default 0 (decomposition !! NULL_ALLELE)
      + Z.of_nat (missingMarkers elements) /\
    (elements <> [] \/ decomposition <> ∅ -> m <> ∅).
Proof.
  revert decomposition.
  induction elements as [| element rest IH]; intros decomposition Hlisted.
  - exists decomposition. cbn. repeat split; try lia.
    intros [Hne | Hne]; [contradiction | exact Hne].
  - cbn in Hlisted. apply andb_true_iff in Hlisted as [Helement Hrest].
    cbn [countAlleles]. rewrite (alleleIndex_listed _ _ Helement). cbn [bindO].
    destruct (IH (countAllele (listedIndex element) decomposition) Hrest)
      as (m & -> & Hploidy & Hnull & Hnonempty).
    exists m. split; [reflexivity |].
    rewrite ploidy_countAllele in Hploidy.
    rewrite lookup_countAllele in Hnull.
    split; [cbn [length]; lia |]. split.
    + rewrite Hnull. unfold missingMarkers. cbn [List.filter].
      destruct (decide (listedIndex element = NULL_ALLELE)) as [Hidx | Hidx].
      * apply (listedIndex_null _ Helement) in Hidx as ->. cbn. lia.
      * destruct (String.eqb_spec element ".") as [-> | _];
          [contradiction Hidx; reflexivity | lia].
    + intros _. apply Hnonempty. right. apply insert_non_empty.
Qed.

Lemma splitOn_cons p s :
  splitOn p s = hd EmptyString (splitOn p s) :: tl (splitOn p s).
Proof.
  destruct s as [| c rest]; cbn; [reflexivity |].
  destruct (p c); [reflexivity |].
  destruct (splitOn p rest); reflexivity.
Qed.

(** A listed element in front of a separator is the first piece. *)
Lemma splitOn_listed element separator s :
  isListedAllele element = true ->
  isGenotypeSeparator separator = true ->
  splitOn isGenotypeSeparator (element ++ String separator s)
  = element :: splitOn isGenotypeSeparator s.
Proof.
  unfold isListedAllele. rewrite !orb_true_iff, !String.eqb_eq.
  intros [[[-> | ->] | ->] | ->] Hsep; cbv [String.append]; cbn [splitOn];
    rewrite Hsep; reflexivity.
Qed.

Lemma splitOn_genotypeString first rest :
  isListedAllele first = true ->
  forallb isListedStep rest = true ->
  splitOn isGenotypeSeparator (genotypeString first rest)
  = first :: map snd rest.
Proof.
  revert first.
  induction rest as [| [separator element] more IH]; intros first Hfirst Hrest.
  - revert Hfirst. unfold isListedAllele.
    rewrite !orb_true_iff, !String.eqb_eq.
    intros [[[-> | ->] | ->] | ->]; reflexivity.
  - cbn in Hrest. apply andb_true_iff in Hrest as [Hstep Hmore].
    unfold isListedStep in Hstep. cbn in Hstep.
    apply andb_true_iff in Hstep as [Hsep Helement].
    cbn [genotypeString]. rewrite (splitOn_listed _ _ _ Hfirst Hsep).
    rewrite (IH element Helement Hmore). reflexivity.
Qed.

Lemma exactly_one_of_het_hom (genotype : gmap Z Z) :
  genotype <> ∅ -> xorb (isHet genotype) (isHom genotype) = true.
Proof.
  intros Hne. apply map_size_non_empty_iff in Hne.
  unfold isHet, isHom. destruct (size genotype) as [| [| n]];
    [contradiction Hne; reflexivity | reflexivity | reflexivity].
Qed.

(** C5: a valid genotype string over the alleles 0, 1, 2 and null with
    ploidy 1 to 3 decomposes into counts that sum to its ploidy; the
    missing markers are counted under the null allele, which no
    non-negative allele index equals; and exactly one of [isHet] and
    [isHom] holds of the decomposition. *)
Theorem decomposition_of_valid_genotype :
  forall (first : string) (rest : list (ascii * string)),
    isListedAllele first = true ->
    forallb isListedStep rest = true ->
    (length rest <= 2)%nat ->
    exists m,
      decomposeGenotype (genotypeString first rest) = Returns m /\
      ploidy m = Z.of_nat (S (length rest)) /\
      default 0 (m !! NULL_ALLELE)
      = Z.of_nat (missingMarkers (first :: map snd rest)) /\
      (forall a, 0 <= a -> a <> NULL_ALLELE) /\
      xorb (isHet m) (isHom m) = true.
Proof.
  intros first rest Hfirst Hrest _.
  unfold decomposeGenotype.
  rewrite (splitOn_genotypeString _ _ Hfirst Hrest).
  destruct (countAlleles_listed (genotypeString first rest)
              (first :: map snd rest) ∅)
    as (m & Hm & Hploidy & Hnull & Hnonempty).
  { cbn. rewrite Hfirst. cbn. rewrite forallb_forall in *.
    intros element Hin. apply in_map_iff in Hin as (more & <- & Hin).
    specialize (Hrest more Hin). unfold isListedStep in Hrest.
    apply andb_true_iff in Hrest. apply Hrest. }
  exists m. split; [exact Hm |].
  split.
  { rewrite Hploidy. cbn [length]. rewrite length_map.
    unfold ploidy. rewrite map_fold_empty. lia. }
  split; [rewrite Hnull, lookup_empty; cbn; lia |].
  split; [unfold NULL_ALLELE; lia |].
  apply exactly_one_of_het_hom, Hnonempty. left. discriminate.
Qed.

(** The theorem at the phased triploid genotype [0|.|2]. *)
Lemma decomposition_of_valid_genotype_witness :
  isListedAllele "0" = true /\
  forallb isListedStep [("|"%char, "."); ("|"%char, "2")] = true /\
  (length [("|"%char, "."); ("|"%char, "2")] <= 2)%nat /\
  exists m,
    decomposeGenotype "0|.|2" = Returns m /\
    ploidy m = 3 /\
    default 0 (m !! NULL_ALLELE) = 1 /\
    (forall a, 0 <= a -> a <> NULL_ALLELE) /\
    xorb (isHet m) (isHom m) = true.
Proof.
  split; [reflexivity |]. split; [reflexivity |]. split; [apply le_n |].
  exact (decomposition_of_valid_genotype "0"
           [("|"%char, "."); ("|"%char, "2")] eq_refl eq_refl (le_n 2)).
Defined.

(** ** The two call shapes of [passes] *)



(** ** Evaluation leaves the record alone *)

(** C9: for a filter spec that compiles, evaluating the compiled filter
    with [passes], in either call shape or at record level, returns the
    record with every member as it was. *)
Theorem passes_leaves_record_unchanged :
  forall filterspec filtertype variables f,
    newVariantFilter filterspec filtertype variables = Returns f ->
    forall (var : Variant.t) (sample : string) (index : Z),
      snd (passes f sample var) = var /\
      snd (passesAllele f sample index var) = var /\
      snd (passesRecord f var) = var.
Proof.
  intros filterspec filtertype variables f _ var sample index.
  split; [apply passes_readOnly |].
  split; [apply passesAllele_readOnly | apply passesRecord_readOnly].
Qed.

(** The theorem at the filter ["AF > 0.5"] and the record with two
    alternate alleles. *)
Lemma passes_leaves_record_unchanged_witness :
  exists f,
    newVariantFilter "AF > 0.5" VariantFilter.SAMPLE registryAF = Returns f /\
    snd (passes f "S1" recordAF) = recordAF /\
    snd (passesAllele f "S1" 1 recordAF) = recordAF /\
    snd (passesRecord f recordAF) = recordAF.
Proof.
  eexists. split; [vm_compute; reflexivity |].
  eapply (passes_leaves_record_unchanged
            "AF > 0.5" VariantFilter.SAMPLE registryAF).
  vm_compute; reflexivity.
Defined.

(** [removeFilteredGenotypes], by contrast, does change the record: the
    sample that fails ["AF > 0.5"] loses its genotype call. *)
Example removeFilteredGenotypes_rewrites_genotype :
  exists f,
    newVariantFilter "AF > 0.5" VariantFilter.SAMPLE registryAF = Returns f /\
    removeFilteredGenotypes f recordAF
    = (Returns tt, removeGenotype "S1" recordAF) /\
    (Variant.samples (removeGenotype "S1" recordAF) !! "S1")
      ≫= (fun fields => fields !! "GT") = Some ["./."] /\
    (Variant.samples (removeGenotype "S1" recordAF) !! "S1")
      ≫= (fun fields => fields !! "AF") = Some ["0.1"; "0.9"].
Proof.
  eexists. split; [vm_compute; reflexivity |].
  split; [| split]; vm_compute; reflexivity.
Qed.

(** ** [removeFilteredGenotypes] twice *)

(** *** The verdict for a sample depends on that sample's values only *)

Lemma sameOutside_info name v w :
  sameOutside name v w -> Variant.info w = Variant.info v.
Proof. intros [-> _]. reflexivity. Qed.

Lemma sameOutside_infoFlags name v w :
  sameOutside name v w -> Variant.infoFlags w = Variant.infoFlags v.
Proof. intros [-> _]. reflexivity. Qed.

Lemma sameOutside_alt name v w :
  sameOutside name v w -> Variant.alt w = Variant.alt v.
Proof. intros [-> _]. reflexivity. Qed.

Section Locality.

Context {A B : Type} (sample : option string).

Lemma localTo_retA (a : A) : localTo sample (retA a).
Proof. intros name v w _ _. reflexivity. Qed.

Lemma localTo_liftO (o : Outcome A) : localTo sample (liftO o).
Proof. intros name v w _ _. reflexivity. Qed.

Lemma localTo_bindA (m : Action A) (k : A -> Action B) :
  readOnly m -> localTo sample m -> (forall a, localTo sample (k a)) ->
  localTo sample (bindA m k).
Proof.
  intros Hro Hm Hk name v w Hname Hsame. unfold bindA.
  pose proof (Hro v) as Hv. pose proof (Hro w) as Hw.
  pose proof (Hm name v w Hname Hsame) as Hfst.
  destruct (m v) as [ov v'], (m w) as [ow w']; cbn in *. subst v' w' ow.
  destruct ov as [a | e | st msg]; [| reflexivity | reflexivity].
  apply (Hk a name v w Hname Hsame).
Qed.

End Locality.

Lemma getInfoValueString_localTo sample key index :
  localTo sample (getInfoValueString key index).
Proof.
  intros name v w _ Hsame. unfold getInfoValueString, bindA, getVar.
  rewrite (sameOutside_info _ _ _ Hsame).
  destruct (Variant.info v !! key); reflexivity.
Qed.

Lemma getInfoValueBool_localTo sample key index :
  localTo sample (getInfoValueBool key index).
Proof.
  intros name v w _ Hsame. unfold getInfoValueBool, bindA, getVar.
  rewrite (sameOutside_infoFlags _ _ _ Hsame).
  destruct (Variant.infoFlags v !! key); reflexivity.
Qed.

Lemma getSampleValueString_localTo key sample index :
  localTo (Some sample) (getSampleValueString key sample index).
Proof.
  intros name v w Hname [_ Hsamples].
  unfold getSampleValueString, bindA, getVar.
  rewrite (Hsamples sample) by congruence.
  destruct (Variant.samples w !! sample) as [fields |]; [| reflexivity].
  destruct (fields !! key); reflexivity.
Qed.

Lemma getInfoValueString_readOnly key index :
  readOnly (getInfoValueString key index).
Proof. unfold getInfoValueString. action_auto. Qed.

Lemma getSampleValueString_readOnly key sample index :
  readOnly (getSampleValueString key sample index).
Proof. unfold getSampleValueString. action_auto. Qed.

#[local] Hint Resolve localTo_retA localTo_liftO getInfoValueString_localTo
  getInfoValueBool_localTo getSampleValueString_localTo
  getInfoValueString_readOnly getSampleValueString_readOnly : actions.

(** As [action_auto], for goals about [localTo]. *)
Ltac local_auto :=
  repeat first
    [ progress intros
    | solve [auto with actions]
    | apply localTo_bindA
    | match goal with
      | |- localTo _ (match ?x with _ => _ end) => destruct x
      end ].

Lemma getValueString_localTo key sample index :
  localTo sample (getValueString key sample index).
Proof. unfold getValueString. local_auto. Qed.

Lemma getValueFloat_localTo key sample index :
  localTo sample (getValueFloat key sample index).
Proof.
  unfold getValueFloat, getSampleValueFloat, getInfoValueFloat. local_auto.
Qed.

Lemma getValueBool_localTo key sample index :
  localTo sample (getValueBool key sample index).
Proof. unfold getValueBool, getSampleValueBool. local_auto. Qed.

#[local] Hint Resolve getValueString_localTo getValueFloat_localTo
  getValueBool_localTo : actions.

Lemma resolve_localTo token sample index :
  localTo sample (resolve token sample index).
Proof. unfold resolve. local_auto. Qed.

#[local] Hint Resolve resolve_localTo : actions.

Lemma evaluateToken_localTo token sample index results :
  localTo sample (evaluateToken token sample index results).
Proof. unfold evaluateToken. local_auto. Qed.

#[local] Hint Resolve evaluateToken_localTo : actions.

Lemma evaluateRules_localTo rules sample index results :
  localTo sample (evaluateRules rules sample index results).
Proof.
  revert results.
  induction rules as [| token rest IH]; intros results; cbn; local_auto.
Qed.

#[local] Hint Resolve evaluateRules_localTo : actions.

Lemma evaluate_localTo f sample index :
  localTo sample (evaluate f sample index).
Proof. unfold evaluate. local_auto. Qed.

#[local] Hint Resolve evaluate_localTo : actions.

Lemma passesAllele_localTo f sample index :
  localTo (Some sample) (passesAllele f sample index).
Proof. unfold passesAllele. local_auto. Qed.

#[local] Hint Resolve passesAllele_localTo : actions.

Lemma allPass_localTo f sample indices :
  localTo (Some sample) (allPass f sample indices).
Proof. induction indices as [| index rest IH]; cbn; local_auto. Qed.

Lemma passes_localTo f sample : localTo (Some sample) (passes f sample).
Proof.
  intros name v w Hname Hsame. unfold passes, bindA, getVar, altIndices.
  rewrite (sameOutside_alt _ _ _ Hsame).
  apply (allPass_localTo f sample _ name v w Hname Hsame).
Qed.

(** *** Rewriting a genotype to missing *)

Lemma missingAlleles_idempotent genotype :
  missingAlleles (missingAlleles genotype) = missingAlleles genotype.
Proof.
  induction genotype as [| c rest IH]; cbn; [reflexivity |].
  destruct (isGenotypeSeparator c) eqn:Hsep; [| exact IH].
  cbn. rewrite Hsep. cbn. rewrite IH. reflexivity.
Qed.

Lemma missingGenotype_idempotent genotype :
  missingGenotype (missingGenotype genotype) = missingGenotype genotype.
Proof.
  unfold missingGenotype. cbn. rewrite missingAlleles_idempotent. reflexivity.
Qed.

Lemma removeGenotype_samples name var :
  Variant.samples (removeGenotype name var)
  = alter (alter (map missingGenotype) "GT") name (Variant.samples var).
Proof. reflexivity. Qed.

Lemma set_samples_set_samples s1 s2 var :
  Variant.set_samples s1 (Variant.set_samples s2 var)
  = Variant.set_samples s1 var.
Proof. reflexivity. Qed.

Lemma removeGenotype_idempotent name var :
  removeGenotype name (removeGenotype name var) = removeGenotype name var.
Proof.
  unfold removeGenotype. cbn [Variant.samples Variant.set_samples].
  rewrite set_samples_set_samples. f_equal.
  rewrite alter_alter_eq. apply alter_ext. intros fields _. cbn.
  rewrite alter_alter_eq. apply alter_ext. intros genotypes _. cbn.
  rewrite map_map. apply map_ext.
  intros genotype. apply missingGenotype_idempotent.
Qed.

Lemma removeGenotype_commute name1 name2 var :
  removeGenotype name1 (removeGenotype name2 var)
  = removeGenotype name2 (removeGenotype name1 var).
Proof.
  destruct (decide (name1 = name2)) as [-> | Hne]; [reflexivity |].
  unfold removeGenotype. cbn [Variant.samples Variant.set_samples].
  rewrite !set_samples_set_samples. f_equal.
  apply alter_alter_ne. exact Hne.
Qed.

Lemma removeGenotype_sameOutside name var :
  sameOutside name var (removeGenotype name var).
Proof.
  split; [reflexivity |]. intros other Hother.
  rewrite removeGenotype_samples, lookup_alter_ne by congruence. reflexivity.
Qed.

(** The verdict for a sample is not changed by rewriting another
    sample's genotype. *)
Lemma passes_removeGenotype_other f sample name var :
  sample <> name ->
  fst (passes f sample (removeGenotype name var)) = fst (passes f sample var).
Proof.
  intros Hne. symmetry.
  apply (passes_localTo f sample name); [congruence |].
  apply removeGenotype_sameOutside.
Qed.

(** *** One step, and the steps that have nothing left to do *)

Lemma removeFilteredGenotype_cases f name var :
  removeFilteredGenotype f name var =
  match fst (passes f name var) with
  | Returns true => (Returns tt, var)
  | Returns false => (Returns tt, removeGenotype name var)
  | Fails e => (Fails e, var)
  | Exits st msg => (Exits st msg, var)
  end.
Proof.
  unfold removeFilteredGenotype, bindA.
  pose proof (passes_readOnly f name var) as Hro.
  destruct (passes f name var) as [[[|] | e | st msg] var']; cbn in *;
    subst var'; reflexivity.
Qed.

Lemma settled_iff f var name :
  settled f var name <->
  (fst (passes f name var) = Returns false -> removeGenotype name var = var).
Proof.
  unfold settled. rewrite removeFilteredGenotype_cases.
  destruct (fst (passes f name var)) as [[|] | e | st msg]; cbn;
    intuition discriminate.
Qed.

(** A step settles its own sample and keeps the settled ones settled. *)
Lemma removeFilteredGenotype_settles f name var :
  fst (removeFilteredGenotype f name var) = Returns tt ->
  settled f (snd (removeFilteredGenotype f name var)) name.
Proof.
  rewrite removeFilteredGenotype_cases.
  destruct (fst (passes f name var)) as [[|] | e | st msg] eqn:Hpass; cbn;
    try discriminate; intros _; apply settled_iff.
  - rewrite Hpass. discriminate.
  - intros _. apply removeGenotype_idempotent.
Qed.

Lemma removeFilteredGenotype_keeps_settled f name var other :
  settled f var other ->
  settled f (snd (removeFilteredGenotype f name var)) other.
Proof.
  intros Hother.
  destruct (decide (other = name)) as [-> | Hne].
  - pose proof (removeFilteredGenotype_settles f name var) as Hown.
    rewrite removeFilteredGenotype_cases in *.
    destruct (fst (passes f name var)) as [[|] | e | st msg]; cbn in *;
      solve [exact Hother | apply Hown; reflexivity].
  - rewrite removeFilteredGenotype_cases.
    destruct (fst (passes f name var)) as [[|] | e | st msg]; cbn;
      try exact Hother.
    apply settled_iff. rewrite (passes_removeGenotype_other _ _ _ _ Hne).
    intros Hfails.
    pose proof (proj1 (settled_iff f var other) Hother Hfails) as Hsame.
    rewrite removeGenotype_commute, Hsame. reflexivity.
Qed.

Lemma removeFilteredGenotype_abort f name var :
  fst (removeFilteredGenotype f name var) <> Returns tt ->
  snd (removeFilteredGenotype f name var) = var.
Proof.
  rewrite removeFilteredGenotype_cases.
  destruct (fst (passes f name var)) as [[|] | e | st msg]; cbn;
    congruence.
Qed.

Lemma forEach_cons {A} (x : A) rest body var :
  forEach (x :: rest) body var =
  match body x var with
  | (Returns _, var') => forEach rest body var'
  | (Fails e, var') => (Fails e, var')
  | (Exits st msg, var') => (Exits st msg, var')
  end.
Proof. reflexivity. Qed.

(** Running settled steps in front of a run that leaves the record alone
    leaves the record alone. *)
Lemma forEach_settled f done names var :
  Forall (settled f var) done ->
  snd (forEach names (removeFilteredGenotype f) var) = var ->
  snd (forEach (done ++ names) (removeFilteredGenotype f) var) = var.
Proof.
  intros Hdone Hnames.
  induction Hdone as [| name done Hname Hdone IH]; [exact Hnames |].
  cbn [app]. rewrite forEach_cons. unfold settled in Hname.
  destruct (removeFilteredGenotype f name var) as [[[] | e | st msg] var'];
    cbn in Hname; subst var'; [exact IH | reflexivity | reflexivity].
Qed.

(** The record a run ends with is one on which running the samples done
    before and the samples of the run again changes nothing. *)
Lemma forEach_reaches_settled f names :
  forall done var,
    Forall (settled f var) done ->
    let var1 := snd (forEach names (removeFilteredGenotype f) var) in
    snd (forEach (done ++ names) (removeFilteredGenotype f) var1) = var1.
Proof.
  induction names as [| name rest IH]; intros done var Hdone; cbn zeta.
  - cbn. apply forEach_settled; [exact Hdone | reflexivity].
  - rewrite forEach_cons.
    pose proof (removeFilteredGenotype_settles f name var) as Hown.
    pose proof (removeFilteredGenotype_abort f name var) as Habort.
    assert (Hkeep : Forall (settled f (snd (removeFilteredGenotype f name var)))
                      done).
    { eapply Forall_impl; [exact Hdone |].
      intros other. apply removeFilteredGenotype_keeps_settled. }
    destruct (removeFilteredGenotype f name var) as [[[] | e | st msg] var']
      eqn:Hstep; cbn in *.
    + specialize (IH (done ++ [name])%list var').
      rewrite <- app_assoc in IH. apply IH.
      apply Forall_app. split; [exact Hkeep |].
      constructor; [apply Hown; reflexivity | constructor].
    + rewrite Habort in * by discriminate.
      apply forEach_settled; [exact Hdone |].
      rewrite forEach_cons, Hstep. reflexivity.
    + rewrite Habort in * by discriminate.
      apply forEach_settled; [exact Hdone |].
      rewrite forEach_cons, Hstep. reflexivity.
Qed.

Lemma forEach_sampleNames f names var :
  Variant.sampleNames (snd (forEach names (removeFilteredGenotype f) var))
  = Variant.sampleNames var.
Proof.
  revert var. induction names as [| name rest IH]; intros var; [reflexivity |].
  rewrite forEach_cons, removeFilteredGenotype_cases.
  destruct (fst (passes f name var)) as [[|] | e | st msg]; cbn;
    try reflexivity; rewrite IH; reflexivity.
Qed.

(** The pieces of the all-missing genotype: a null marker for every
    piece of the genotype, so the ploidy stays. *)
Lemma splitOn_missingAlleles genotype :
  splitOn isGenotypeSeparator (missingAlleles genotype)
  = EmptyString
    :: map (fun _ => ".") (tl (splitOn isGenotypeSeparator genotype)).
Proof.
  induction genotype as [| c rest IH]; cbn; [reflexivity |].
  destruct (isGenotypeSeparator c) eqn:Hsep; cbn.
  - rewrite Hsep. cbn. rewrite IH.
    rewrite (splitOn_cons _ rest) at 2. reflexivity.
  - rewrite IH. destruct (splitOn isGenotypeSeparator rest); reflexivity.
Qed.

Lemma splitOn_missingGenotype genotype :
  splitOn isGenotypeSeparator (missingGenotype genotype)
  = map (fun _ => ".") (splitOn isGenotypeSeparator genotype).
Proof.
  unfold missingGenotype. cbn. rewrite splitOn_missingAlleles.
  rewrite (splitOn_cons _ genotype) at 2. reflexivity.
Qed.

(** C8: [removeFilteredGenotypes] is idempotent on the record: the
    record after applying it twice in a row is the record after applying
    it once, for every filter and record, whatever the outcomes of the
    two calls.  The rewrite it makes puts a null marker at every allele
    position, which keeps the ploidy, and rewriting an all-missing
    genotype changes nothing. *)
Theorem removeFilteredGenotypes_idempotent :
  (forall (f : VariantFilter.t) (var : Variant.t),
     snd (removeFilteredGenotypes f (snd (removeFilteredGenotypes f var)))
     = snd (removeFilteredGenotypes f var)) /\
  (forall genotype,
     splitOn isGenotypeSeparator (missingGenotype genotype)
     = map (fun _ => ".") (splitOn isGenotypeSeparator genotype)) /\
  (forall genotype,
     missingGenotype (missingGenotype genotype) = missingGenotype genotype).
Proof.
  split; [| split].
  - intros f var. unfold removeFilteredGenotypes, bindA, getVar.
    rewrite forEach_sampleNames.
    apply (forEach_reaches_settled f (Variant.sampleNames var) [] var).
    constructor.
  - exact splitOn_missingGenotype.
  - exact missingGenotype_idempotent.
Qed.

(** ** The scenarios of the specification, run on the model *)

Example postfix_order :
  ruleTypes (newVariantFilter "1 + 2 * 3" VariantFilter.RECORD ∅)
  = Returns [NUMBER; NUMBER; NUMBER; MULTIPLY_OPERATOR; ADD_OPERATOR] /\
  ruleTypes (newVariantFilter "(1 + 2) * 3" VariantFilter.RECORD ∅)
  = Returns [NUMBER; NUMBER; ADD_OPERATOR; NUMBER; MULTIPLY_OPERATOR].
Proof. split; vm_compute; reflexivity. Qed.

Example unbalanced_parentheses_fail_compilation :
  newVariantFilter "(A & B" VariantFilter.RECORD registryABC
  = Fails UnbalancedParentheses /\
  newVariantFilter "A & B)" VariantFilter.RECORD registryABC
  = Fails UnbalancedParentheses.
Proof. split; vm_compute; reflexivity. Qed.

Example unknown_identifier_fails_compilation :
  newVariantFilter "FOO > 3" VariantFilter.RECORD registryDP
  = Fails (SyntaxError "FOO").
Proof. vm_compute. reflexivity. Qed.

Example depth_scenario :
  specPasses "DP > 10" registryDP "S1" (recordDP "15") = Returns true /\
  specPasses "DP > 10" registryDP "S1" (recordDP "5") = Returns false.
Proof. split; vm_compute; reflexivity. Qed.

Example evaluation_errors_are_reported :
  specPasses "DP / 0 > 1" registryDP "S1" (recordDP "15") = Fails DivideByZero /\
  specPasses "DP & 1" registryDP "S1" (recordDP "15") = Fails TypeMismatch /\
  specPasses "DP + 1" registryDP "S1" (recordDP "15") = Fails MalformedFilter /\
  specPasses "DP > 10" registryDP "S2" (recordDP "15")
  = Fails (UnknownSample "S2") /\
  specPasses "DP > 10" registryDP "S1" (recordDP "many")
  = Fails (ValueError "many").
Proof. repeat split; vm_compute; reflexivity. Qed.

Example genotype_classification :
  (genotype <- decomposeGenotype "0/0";; Returns (isHomRef genotype))%outcome
  = Returns true /\
  (genotype <- decomposeGenotype "1/1";; Returns (isHomNonRef genotype))%outcome
  = Returns true /\
  (genotype <- decomposeGenotype "0/1";; Returns (isHet genotype))%outcome
  = Returns true /\
  (genotype <- decomposeGenotype "./1";; Returns (isNull genotype))%outcome
  = Returns true /\
  (genotype <- decomposeGenotype "1/1";; Returns (isNull genotype))%outcome
  = Returns false /\
  decomposeGenotype "0/x" = Fails (MalformedGenotype "0/x").
Proof. repeat split; vm_compute; reflexivity. Qed.

(** * Further properties of the header's functions *)

(** ** Variables, operands, operators *)

(** X1: the three variable kinds exclude one another, [isVariable] holds
    of exactly the tokens of one of them, every variable is an operand,
    and the operands that are no variables are the unclassified operand
    and the number. *)
Theorem variables_are_operands :
  forall token : RuleToken.t,
    (Nat.b2n (isNumeric token) + Nat.b2n (isString token)
     + Nat.b2n (isBoolean token) = Nat.b2n (isVariable token))%nat /\
    (isVariable token = true -> isOperand token = true) /\
    (isOperand token = true /\ isVariable token = false <->
     RuleToken.type token = OPERAND \/ RuleToken.type token = NUMBER).
Proof.
  intros token. by_token_type token; intuition (discriminate || congruence).
Qed.

Lemma variables_are_operands_witness :
  isVariable RuleToken.default = true /\
  isOperand RuleToken.default = true.
Proof.
  split; [reflexivity |].
  exact (proj1 (proj2 (variables_are_operands RuleToken.default)) eq_refl).
Defined.

(** X2: two operators of the same priority associate the same way, so a
    run of operators of one priority has one grouping; logical not is the
    only operator that associates to the right. *)
Theorem equal_priority_same_associativity :
  forall a b : RuleToken.t,
    isOperator a = true -> isOperator b = true ->
    (priority a = priority b ->
     isRightAssociative a = isRightAssociative b) /\
    (isRightAssociative a = true <-> RuleToken.type a = NOT_OPERATOR).
Proof.
  intros a b Ha Hb.
  destruct a as [ta ? ? ? ? ?], b as [tb ? ? ? ? ?].
  destruct ta; try discriminate Ha; destruct tb; try discriminate Hb; cbn;
    intuition (discriminate || congruence).
Qed.

Lemma equal_priority_same_associativity_witness :
  isOperator (operatorToken ADD_OPERATOR "+") = true /\
  isOperator (operatorToken SUBTRACT_OPERATOR "-") = true /\
  isRightAssociative (operatorToken ADD_OPERATOR "+")
  = isRightAssociative (operatorToken SUBTRACT_OPERATOR "-").
Proof.
  split; [reflexivity |]. split; [reflexivity |].
  exact (proj1 (equal_priority_same_associativity
                  (operatorToken ADD_OPERATOR "+")
                  (operatorToken SUBTRACT_OPERATOR "-") eq_refl eq_refl)
           eq_refl).
Defined.

(** [priority] is 0 on exactly the parentheses and between 3 and 8 on
    exactly the operators, so every operator outranks a parenthesis; it
    returns on exactly the tokens that are no operands. *)
Lemma priority_ranges :
  forall token : RuleToken.t,
    (priority token = Returns 0 <-> isParenthesis token = true) /\
    ((exists n, priority token = Returns n /\ 3 <= n <= 8) <->
     isOperator token = true) /\
    ((exists n, priority token = Returns n) <-> isOperand token = false).
Proof.
  intros token.
  by_token_type token; repeat split; intros;
    repeat match goal with
           | H : exists _, _ |- _ => destruct H
           | H : _ /\ _ |- _ => destruct H
           end;
    try discriminate; try reflexivity;
    try (eexists; split; [reflexivity | lia]);
    try (eexists; reflexivity);
    match goal with
    | H : Returns _ = Returns _ |- _ => injection H as <-; lia
    end.
Qed.

(** ** Operator and parenthesis characters *)

Ltac by_character c :=
  destruct c as [[] [] [] [] [] [] [] []]; cbn.

(** X3: no character is both an operator character and a parenthesis
    character, and neither kind contains a letter, a digit, the
    underscore, the decimal point or a white-space character: names and
    unsigned numbers are never cut by the tokenizer's character tests. *)
Theorem operator_characters_are_punctuation :
  forall c : ascii,
    (isOperatorChar c && isParanChar c = false) /\
    (isWordChar c || isspace c = true ->
     isOperatorChar c = false /\ isParanChar c = false).
Proof.
  intros c. by_character c; split; try reflexivity;
    intros H; try discriminate H; split; reflexivity.
Qed.

Lemma operator_characters_are_punctuation_witness :
  isWordChar "D" || isspace "D" = true /\
  isOperatorChar "D" = false /\ isParanChar "D" = false.
Proof.
  split; [reflexivity |].
  exact (proj2 (operator_characters_are_punctuation "D") eq_refl).
Defined.

(** ** [convert]: what it returns and what it leaves in [r] *)

Lemma span_all p s : allChars p s = true -> span p s = (s, EmptyString).
Proof.
  induction s as [| c rest IH]; cbn; [reflexivity |].
  intros [Hc Hrest]%andb_true_iff. rewrite Hc, (IH Hrest). reflexivity.
Qed.

Lemma span_append p s t :
  allChars p s = true ->
  span p (s ++ t) = ((s ++ fst (span p t))%string, snd (span p t)).
Proof.
  induction s as [| c rest IH]; cbv [String.append]; fold String.append.
  - intros _. destruct (span p t); reflexivity.
  - cbn. intros [Hc Hrest]%andb_true_iff. rewrite Hc, (IH Hrest).
    reflexivity.
Qed.

Lemma span_head_fails p c rest :
  p c = false -> span p (String c rest) = (EmptyString, String c rest).
Proof. intros Hc. cbn. rewrite Hc. reflexivity. Qed.

Lemma digit_is_not_space c : isdigit c = true -> isspace c = false.
Proof. by_character c; intros H; solve [reflexivity | discriminate H]. Qed.

Lemma digit_is_not_sign c :
  isdigit c = true -> (c =? "-")%char = false /\ (c =? "+")%char = false.
Proof. by_character c; intros H; solve [split; reflexivity | discriminate H]. Qed.

Lemma digitsValue_nonneg digits acc :
  allChars isdigit digits = true -> 0 <= acc -> 0 <= digitsValue acc digits.
Proof.
  revert acc. induction digits as [| c rest IH]; cbn; intros acc; [lia |].
  intros [Hc Hrest]%andb_true_iff Hacc. apply (IH _ Hrest).
  assert (0 <= digitValue c); [| lia].
  revert Hc. clear. by_character c; intros H; solve [discriminate H | cbv; discriminate].
Qed.

(** White space, then a character that is none: where the sentry
    stops. *)
Lemma span_isspace_stop ws c rest :
  allChars isspace ws = true -> isspace c = false ->
  span isspace (ws ++ String c rest) = (ws, String c rest).
Proof.
  intros Hws Hc. rewrite (span_append _ _ _ Hws).
  rewrite (span_head_fails _ _ _ Hc). cbn [fst snd].
  f_equal. induction ws as [| w ws' IH]; cbv [String.append];
    fold String.append; [reflexivity |].
  cbn [allChars] in Hws. apply andb_true_iff in Hws as [_ Hws].
  f_equal. apply IH, Hws.
Qed.

Section ConvertOutcome.

Context {T : Type} `{Extraction T}.

(** A failed extraction: the answer is false and [r] holds what
    [num_get] stored. *)
Lemma convert_failed (s ws : string) (c : ascii) (rest : string)
    (r v : T) (n : nat) :
  span isspace s = (ws, String c rest) ->
  num_get (String c rest) = (v, true, n) ->
  convert s r = (false, v).
Proof.
  intros Hspan Hget. unfold convert, extract, open_istringstream, good.
  cbn [failbit eofbit orb negb gpos content dropChars].
  rewrite Hspan, Hget. reflexivity.
Qed.

(** A blank text: the sentry fails and [r] is not touched. *)
Lemma convert_nothing_to_read (s : string) (r : T) :
  allChars isspace s = true -> convert s r = (false, r).
Proof.
  intros Hs. unfold convert, extract, open_istringstream, good.
  cbn [failbit eofbit orb negb gpos content dropChars].
  rewrite (span_all _ _ Hs). reflexivity.
Qed.

(** White space in front changes neither the answer nor what is
    stored. *)
Lemma convert_leading_space (ws s : string) (r : T) :
  allChars isspace ws = true ->
  Z.of_nat (String.length (ws ++ s)) < 2 ^ 64 - 1 ->
  convert (ws ++ s) r = convert s r.
Proof.
  intros Hws Hsize. pose proof Hsize as Hsize'.
  rewrite length_append in Hsize'.
  rewrite (surjective_pairing (convert (ws ++ s) r)).
  rewrite (surjective_pairing (convert s r)).
  rewrite (convert_false (ws ++ s) r Hsize).
  rewrite (convert_false s r) by lia.
  rewrite !convert_stored, (span_append _ _ _ Hws). reflexivity.
Qed.

End ConvertOutcome.

(** *** Text that is no number *)

Lemma startsNumber_false c :
  startsNumber c = false ->
  isdigit c = false /\ (c =? "+")%char = false /\
  (c =? "-")%char = false /\ (c =? ".")%char = false.
Proof.
  unfold startsNumber. intros Hc.
  apply orb_false_iff in Hc as [Hc Hpoint].
  apply orb_false_iff in Hc as [Hc Hminus].
  apply orb_false_iff in Hc as [Hdigit Hplus].
  repeat split; assumption.
Qed.

Lemma getLong_no_number c rest :
  startsNumber c = false -> getLong (String c rest) = (0, true, 0%nat).
Proof.
  intros (Hdigit & Hplus & Hminus & _)%startsNumber_false.
  unfold getLong. cbn [scanSign]. rewrite Hminus, Hplus.
  rewrite (span_head_fails _ _ _ Hdigit). reflexivity.
Qed.

Lemma getDouble_no_number c rest :
  startsNumber c = false -> getDouble (String c rest) = (0%Q, true, 0%nat).
Proof.
  intros (Hdigit & Hplus & Hminus & Hpoint)%startsNumber_false.
  unfold getDouble. cbn [scanSign]. rewrite Hminus, Hplus.
  rewrite (span_head_fails _ _ _ Hdigit). rewrite Hpoint. reflexivity.
Qed.

(** X4: [convert] overwrites [r] also when it finds no number.  On a
    text whose first character after the white space is neither a
    digit, a sign nor the decimal point, the answer is false and [r] is
    zero afterwards (false for a [bool]), whatever it held before. *)
Theorem convert_stores_zero_without_a_number :
  forall (ws rest : string) (c : ascii),
    allChars isspace ws = true ->
    isspace c = false ->
    startsNumber c = false ->
    (forall r : Z, convert (ws ++ String c rest) r = (false, 0)) /\
    (forall r : Q, convert (ws ++ String c rest) r = (false, 0%Q)) /\
    (forall r : bool, convert (ws ++ String c rest) r = (false, false)).
Proof.
  intros ws rest c Hws Hc Hstart.
  pose proof (span_isspace_stop ws c rest Hws Hc) as Hspan.
  split; [| split]; intros r.
  - apply (convert_failed _ _ _ _ r 0 0%nat Hspan).
    change (@num_get Z _ (String c rest)) with (getInt (String c rest)).
    unfold getInt. rewrite (getLong_no_number c rest Hstart). reflexivity.
  - apply (convert_failed _ _ _ _ r 0%Q 0%nat Hspan).
    apply (getDouble_no_number c rest Hstart).
  - apply (convert_failed _ _ _ _ r false 0%nat Hspan).
    change (@num_get bool _ (String c rest)) with (getBool (String c rest)).
    unfold getBool. rewrite (getLong_no_number c rest Hstart). reflexivity.
Qed.

(** The theorem at the text [PASS] read into a variable that holds 7. *)
Lemma convert_stores_zero_without_a_number_witness :
  allChars isspace EmptyString = true /\
  isspace "P" = false /\
  startsNumber "P" = false /\
  convert (EmptyString ++ String "P" "ASS") 7 = (false, 0).
Proof.
  split; [reflexivity |]. split; [reflexivity |]. split; [reflexivity |].
  exact (proj1 (convert_stores_zero_without_a_number
                  EmptyString "ASS" "P" eq_refl eq_refl eq_refl) 7).
Defined.

(** *** Digits *)

(** What the [int] extraction stores for a string of digits. *)
Lemma getInt_digits c rest :
  allChars isdigit (String c rest) = true ->
  fst (fst (getInt (String c rest)))
  = Z.min (digitsValue 0 (String c rest)) INT_MAX.
Proof.
  intros Hdigits. pose proof Hdigits as Hall.
  cbn [allChars] in Hdigits. apply andb_true_iff in Hdigits as [Hc _].
  destruct (digit_is_not_sign c Hc) as [Hminus Hplus].
  pose proof (digitsValue_nonneg _ 0 Hall ltac:(lia)) as Hnonneg.
  unfold getInt, getLong. cbn [scanSign]. rewrite Hminus, Hplus.
  rewrite (span_all isdigit _ Hall).
  cbn [applySign String.length Nat.add Nat.eqb].
  set (v := digitsValue 0 (String c rest)) in *.
  unfold LONG_MIN, LONG_MAX, INT_MIN, INT_MAX.
  destruct (Z.ltb_spec v (- 2 ^ 63)); [lia |].
  destruct (Z.ltb_spec (2 ^ 63 - 1) v).
  - destruct (Z.ltb_spec (2 ^ 63 - 1) (- 2 ^ 31)); [lia |].
    destruct (Z.ltb_spec (2 ^ 31 - 1) (2 ^ 63 - 1)); cbn [fst]; lia.
  - destruct (Z.ltb_spec v (- 2 ^ 31)); [lia |].
    destruct (Z.ltb_spec (2 ^ 31 - 1) v); cbn [fst]; lia.
Qed.

(** X5: [convert] to an [int] on a non-empty string of decimal digits
    answers false, although the whole string is a number, and leaves in
    [r] the number the digits denote, or the largest [int] when that
    number is larger. *)
Theorem convert_int_digits :
  forall (digits : string) (r : Z),
    digits <> EmptyString ->
    allChars isdigit digits = true ->
    Z.of_nat (String.length digits) < 2 ^ 64 - 1 ->
    convert digits r = (false, Z.min (digitsValue 0 digits) INT_MAX).
Proof.
  intros [| c rest] r Hne Hdigits Hsize; [contradiction Hne; reflexivity |].
  rewrite (surjective_pairing (convert (String c rest) r)).
  rewrite (convert_false _ r Hsize), convert_stored.
  pose proof Hdigits as Hall.
  cbn [allChars] in Hdigits. apply andb_true_iff in Hdigits as [Hc _].
  rewrite (span_head_fails isspace c rest (digit_is_not_space c Hc)).
  cbn [snd].
  change (@num_get Z _ (String c rest)) with (getInt (String c rest)).
  rewrite (getInt_digits c rest Hall). reflexivity.
Qed.

(** The theorem at the largest [int] and at the number after it. *)
Lemma convert_int_digits_witness :
  "2147483647" <> EmptyString /\
  allChars isdigit "2147483647" = true /\
  Z.of_nat (String.length "2147483647") < 2 ^ 64 - 1 /\
  convert "2147483647" 0 = (false, 2147483647) /\
  convert "2147483648" 0 = (false, 2147483647).
Proof.
  split; [discriminate |]. split; [reflexivity |]. split; [reflexivity |].
  split.
  - exact (convert_int_digits "2147483647" 0 ltac:(discriminate)
             eq_refl eq_refl).
  - exact (convert_int_digits "2147483648" 0 ltac:(discriminate)
             eq_refl eq_refl).
Defined.

(** *** White space *)

(** X6: on the empty string and on a string of white space only,
    [convert] answers false and leaves the variable as it was, for an
    [int], a [double] and a [bool] alike. *)
Theorem convert_blank :
  forall s : string,
    allChars isspace s = true ->
    (forall r : Z, convert s r = (false, r)) /\
    (forall r : Q, convert s r = (false, r)) /\
    (forall r : bool, convert s r = (false, r)).
Proof.
  intros s Hs.
  split; [| split]; intros r; apply convert_nothing_to_read, Hs.
Qed.

Lemma convert_blank_witness :
  allChars isspace EmptyString = true /\
  convert EmptyString 5 = (false, 5).
Proof.
  split; [reflexivity |].
  exact (proj1 (convert_blank EmptyString eq_refl) 5).
Defined.

(** X7: white space in front of the text does not change what [convert]
    answers or leaves in the variable, for an [int], a [double] and a
    [bool]: it is skipped before the number is read.  The text has fewer
    than [2^64 - 1] characters, the [size_t] that [tellg]'s [-1] is. *)
Theorem convert_skips_leading_space :
  forall ws s : string,
    allChars isspace ws = true ->
    Z.of_nat (String.length (ws ++ s)) < 2 ^ 64 - 1 ->
    (forall r : Z, convert (ws ++ s) r = convert s r) /\
    (forall r : Q, convert (ws ++ s) r = convert s r) /\
    (forall r : bool, convert (ws ++ s) r = convert s r).
Proof.
  intros ws s Hws Hsize. split; [| split]; intros r;
    apply (convert_leading_space ws s r Hws Hsize).
Qed.

Lemma convert_skips_leading_space_witness :
  allChars isspace "  " = true /\
  Z.of_nat (String.length ("  " ++ "42")) < 2 ^ 64 - 1 /\
  convert ("  " ++ "42") 0 = convert "42" 0.
Proof.
  split; [reflexivity |]. split; [reflexivity |].
  exact (proj1 (convert_skips_leading_space "  " "42" eq_refl eq_refl) 0).
Defined.

(** *** Text after the number *)

Lemma lastChar_cons_some c s : exists d, lastChar (String c s) = Some d.
Proof.
  revert c. induction s as [| c' rest IH]; intros c; [exists c; reflexivity |].
  destruct (IH c') as [d Hd]. exists d. exact Hd.
Qed.

Lemma lastChar_cons c s :
  lastChar (String c s)
  = match lastChar s with Some d => Some d | None => Some c end.
Proof.
  destruct s as [| c' rest]; [reflexivity |].
  destruct (lastChar_cons_some c' rest) as [d Hd].
  change (lastChar (String c (String c' rest)))
    with (lastChar (String c' rest)).
  rewrite Hd. reflexivity.
Qed.

Lemma lastChar_append a b :
  lastChar (a ++ b)
  = match lastChar b with Some d => Some d | None => lastChar a end.
Proof.
  induction a as [| c rest IH]; cbv [String.append]; fold String.append.
  - cbn [lastChar]. destruct (lastChar b); reflexivity.
  - rewrite !lastChar_cons, IH. destruct (lastChar b); reflexivity.
Qed.

Lemma lastChar_none s : lastChar s = None -> s = EmptyString.
Proof.
  induction s as [| c rest IH]; [reflexivity |].
  cbn [lastChar]. destruct rest as [| c' rest']; [discriminate |].
  intros Hnone. discriminate (IH Hnone).
Qed.

Lemma lastChar_some s :
  s <> EmptyString -> exists d, lastChar s = Some d.
Proof.
  intros Hne. destruct (lastChar s) as [d |] eqn:Hlast; [exists d; reflexivity |].
  contradiction Hne. apply lastChar_none, Hlast.
Qed.

Lemma allChars_lastChar p s d :
  allChars p s = true -> lastChar s = Some d -> p d = true.
Proof.
  induction s as [| c rest IH]; [discriminate |].
  cbn [allChars lastChar]. intros [Hc Hrest]%andb_true_iff.
  destruct rest as [| c' rest']; [intros [= <-]; exact Hc |].
  apply IH, Hrest.
Qed.

Lemma length_zero s : String.length s = 0%nat -> s = EmptyString.
Proof. destruct s; [reflexivity | discriminate]. Qed.

Lemma scanSign_eq s :
  exists sign,
    s = (sign ++ snd (scanSign s))%string /\
    String.length sign = snd (fst (scanSign s)).
Proof.
  destruct s as [| c rest]; cbn [scanSign]; [exists EmptyString; split; reflexivity |].
  destruct (c =? "-")%char;
    [exists (String c EmptyString); split; reflexivity |].
  destruct (c =? "+")%char;
    [exists (String c EmptyString); split; reflexivity |].
  exists EmptyString; split; reflexivity.
Qed.

(** A digit string that is not empty ends with a digit, whatever stands
    in front of it. *)
Lemma ends_with_digit front digits :
  allChars isdigit digits = true -> String.length digits <> 0%nat ->
  exists d, lastChar (front ++ digits) = Some d /\ isdigit d = true.
Proof.
  intros Hall Hne.
  destruct (lastChar_some digits) as [d Hd];
    [intros ->; contradiction Hne; reflexivity |].
  exists d. rewrite lastChar_append, Hd. split; [reflexivity |].
  apply (allChars_lastChar _ _ _ Hall Hd).
Qed.

(** A [long] read without failure to the end of the text: the text ends
    with a digit. *)
Lemma getLong_to_the_end s v n :
  getLong s = (v, false, n) -> (String.length s <= n)%nat ->
  exists d, lastChar s = Some d /\ isdigit d = true.
Proof.
  unfold getLong.
  destruct (scanSign_eq s) as (sign & Hs & Hsign).
  destruct (scanSign s) as [[negative nsign] s1]. cbn [fst snd] in Hs, Hsign.
  destruct (span_eq isdigit s1) as [Hs1 Hdigits].
  destruct (span isdigit s1) as [digits s2]. cbn [fst snd] in Hs1, Hdigits.
  destruct (Nat.eqb_spec (String.length digits) 0) as [| Hne]; [discriminate |].
  destruct (_ <? LONG_MIN); [discriminate |].
  destruct (LONG_MAX <? _); [discriminate |].
  intros [= _ <-] Hlen.
  assert (s2 = EmptyString) as ->.
  { apply length_zero. subst s s1. rewrite !length_append in Hlen. lia. }
  subst s s1. rewrite !lastChar_append. cbn [lastChar].
  destruct (ends_with_digit EmptyString digits Hdigits Hne) as (d & Hd & Hdigit).
  cbv [String.append] in Hd. rewrite Hd. exists d. split; [reflexivity | exact Hdigit].
Qed.

Lemma getInt_to_the_end s v n :
  getInt s = (v, false, n) -> (String.length s <= n)%nat ->
  exists d, lastChar s = Some d /\ isdigit d = true.
Proof.
  unfold getInt. destruct (getLong s) as [[l failed] m] eqn:Hlong.
  destruct (l <? INT_MIN); [discriminate |].
  destruct (INT_MAX <? l); [discriminate |].
  intros [= _ -> <-]. apply (getLong_to_the_end s l m Hlong).
Qed.

Lemma getBool_to_the_end s v n :
  getBool s = (v, false, n) -> (String.length s <= n)%nat ->
  exists d, lastChar s = Some d /\ isdigit d = true.
Proof.
  unfold getBool. destruct (getLong s) as [[l failed] m] eqn:Hlong.
  destruct (l =? 0); [intros [= _ -> <-]; apply (getLong_to_the_end s l m Hlong) |].
  destruct (l =? 1); [intros [= _ -> <-]; apply (getLong_to_the_end s l m Hlong) |].
  discriminate.
Qed.

(** An exponent that takes all of the text: there is none, or it ends
    with a digit. *)
Lemma scanExponent_to_the_end s e :
  scanExponent s = (Some e, String.length s) ->
  s = EmptyString \/ exists d, lastChar s = Some d /\ isdigit d = true.
Proof.
  destruct s as [| c rest]; [left; reflexivity |]. intros Hscan. right.
  revert Hscan. cbn [scanExponent].
  destruct ((c =? "e")%char || (c =? "E")%char); [| intros [= _ Hlen]; discriminate Hlen].
  destruct (scanSign_eq rest) as (sign & Hrest & Hsign).
  destruct (scanSign rest) as [[negative nsign] s1]. cbn [fst snd] in Hrest, Hsign.
  destruct (span_eq isdigit s1) as [Hs1 Hdigits].
  destruct (span isdigit s1) as [digits s2]. cbn [fst snd] in Hs1, Hdigits.
  destruct (Nat.eqb_spec (String.length digits) 0) as [| Hne]; [discriminate |].
  intros [= _ Hlen].
  assert (s2 = EmptyString) as ->.
  { apply length_zero. subst rest s1. cbn [String.length] in Hlen.
    rewrite !length_append in Hlen. lia. }
  subst rest s1.
  change (String c (sign ++ digits ++ EmptyString))
    with (String c EmptyString ++ (sign ++ digits ++ EmptyString))%string.
  rewrite !lastChar_append. cbn [lastChar].
  destruct (ends_with_digit EmptyString digits Hdigits Hne) as (d & Hd & Hdigit).
  cbv [String.append] in Hd. rewrite Hd. exists d. split; [reflexivity | exact Hdigit].
Qed.

(** A [double] read without failure to the end of the text: the text
    ends with a digit or with the decimal point. *)
Lemma getDouble_to_the_end s v n :
  getDouble s = (v, false, n) -> (String.length s <= n)%nat ->
  exists d, lastChar s = Some d /\ endsNumber d = true.
Proof.
  unfold getDouble.
  destruct (scanSign_eq s) as (sign & Hs & Hsign).
  destruct (scanSign s) as [[negative nsign] s2]. cbn [fst snd] in Hs, Hsign.
  destruct (span_eq isdigit s2) as [Hs2 Hwhole].
  destruct (span isdigit s2) as [whole s3]. cbn [fst snd] in Hs2, Hwhole.
  assert (Hpoint :
    forall npoint fraction s4,
      match s3 with
      | String c rest =>
          if (c =? ".")%char
          then let '(fraction, s4) := span isdigit rest in (1%nat, fraction, s4)
          else (0%nat, EmptyString, s3)
      | EmptyString => (0%nat, EmptyString, s3)
      end = (npoint, fraction, s4) ->
      allChars isdigit fraction = true /\
      exists point,
        s3 = (point ++ fraction ++ s4)%string /\
        String.length point = npoint /\
        (point = EmptyString \/ point = ".")).
  { intros npoint fraction s4.
    destruct s3 as [| c rest].
    { intros [= <- <- <-]. split; [reflexivity |].
      exists EmptyString. repeat split. left; reflexivity. }
    destruct (Ascii.eqb_spec c ".") as [-> | _].
    - destruct (span_eq isdigit rest) as [Hrest Hfraction].
      destruct (span isdigit rest) as [fraction' s4'].
      cbn [fst snd] in Hrest, Hfraction.
      intros [= <- <- <-]. split; [exact Hfraction |].
      exists ".". split; [cbv [String.append]; fold String.append; f_equal; exact Hrest |].
      split; [reflexivity | right; reflexivity].
    - intros [= <- <- <-]. split; [reflexivity |].
      exists EmptyString. repeat split. left; reflexivity. }
  destruct (match s3 with
            | String c rest => _
            | EmptyString => _
            end) as [[npoint fraction] s4] eqn:Hs3.
  destruct (Hpoint _ _ _ eq_refl) as (Hfraction & point & Hs3' & Hnpoint & Hkind).
  clear Hpoint Hs3.
  destruct (Nat.eqb_spec (String.length whole + String.length fraction) 0)
    as [| Hmantissa]; [discriminate |].
  pose proof (scanExponent_length s4) as Hbound.
  destruct (scanExponent s4) as [[e |] nexp] eqn:Hexp; [| discriminate].
  cbn [snd] in Hbound.
  destruct (Qle_bool _ DBL_MAX); [| discriminate].
  intros [= _ <-] Hlen.
  assert (nexp = String.length s4) as ->.
  { subst s s2 s3. rewrite !length_append in Hlen. lia. }
  subst s s2 s3. rewrite !lastChar_append.
  destruct (scanExponent_to_the_end s4 e Hexp) as [-> | (d & Hd & Hdigit)].
  - cbn [lastChar].
    destruct (lastChar fraction) as [d |] eqn:Hlast.
    { exists d. split; [reflexivity |]. unfold endsNumber.
      rewrite (allChars_lastChar _ _ _ Hfraction Hlast). reflexivity. }
    apply lastChar_none in Hlast. subst fraction.
    destruct Hkind as [-> | ->]; cbn [lastChar].
    + destruct (lastChar_some whole) as [d Hd].
      { intros ->. contradiction Hmantissa. reflexivity. }
      rewrite Hd. exists d. split; [reflexivity |]. unfold endsNumber.
      rewrite (allChars_lastChar _ _ _ Hwhole Hd). reflexivity.
    + exists "."%char. split; reflexivity.
  - rewrite Hd. exists d. split; [reflexivity |]. unfold endsNumber.
    rewrite Hdigit. reflexivity.
Qed.

Lemma space_does_not_end_a_number c :
  isspace c = true -> endsNumber c = false.
Proof. by_character c; intros H; solve [reflexivity | discriminate H]. Qed.

Lemma digit_ends_a_number c : isdigit c = true -> endsNumber c = true.
Proof. intros Hc. unfold endsNumber. rewrite Hc. reflexivity. Qed.

Section TrailingText.

Context {T : Type} `{Extraction T}.

(** When a value read without failure to the end of the text means the
    text ends in a character of a number, text ending in any other
    character is refused. *)
Lemma convert_refuses_ending (s : string) (c : ascii) (r : T) :
  Z.of_nat (String.length (s ++ String c EmptyString)) < 2 ^ 64 ->
  (forall text v n,
      num_get text = (v, false, n) -> (String.length text <= n)%nat ->
      exists d, lastChar text = Some d /\ endsNumber d = true) ->
  endsNumber c = false ->
  fst (convert (s ++ String c EmptyString) r) = false.
Proof.
  intros Hsize Hend Hc.
  destruct (fst (convert (s ++ String c EmptyString) r)) eqn:Hflag;
    [| reflexivity].
  destruct (convert_true_size _ r Hsize Hflag)
    as (_ & ws & c' & rest & v & n & Hs & Hget & Hlen).
  destruct (Hend _ v n Hget Hlen) as (d & Hd & Hdigit).
  pose proof (f_equal lastChar Hs) as Hlast.
  rewrite !lastChar_append, Hd in Hlast. cbn [lastChar] in Hlast.
  injection Hlast as <-. congruence.
Qed.

End TrailingText.

(** X8: text that ends with a character that is neither a digit nor
    the decimal point is not a number for [convert]: the answer is false
    for an [int], a [double] and a [bool].  White space is such a
    character, so a value followed by a blank, a tab or a carriage
    return is refused. *)
Theorem convert_refuses_trailing_text :
  forall (s : string) (c : ascii),
    endsNumber c = false ->
    Z.of_nat (String.length (s ++ String c EmptyString)) < 2 ^ 64 ->
    (forall r : Z, fst (convert (s ++ String c EmptyString) r) = false) /\
    (forall r : Q, fst (convert (s ++ String c EmptyString) r) = false) /\
    (forall r : bool, fst (convert (s ++ String c EmptyString) r) = false) /\
    (forall w : ascii, isspace w = true -> endsNumber w = false).
Proof.
  intros s c Hc Hsize. split; [| split; [| split]].
  - intros r. apply (convert_refuses_ending s c r Hsize); [| exact Hc].
    intros text v n Hget Hlen.
    destruct (getInt_to_the_end _ v n Hget Hlen) as (d & Hd & Hdigit).
    exists d. split; [exact Hd | apply digit_ends_a_number, Hdigit].
  - intros r. apply (convert_refuses_ending s c r Hsize); [| exact Hc].
    intros text v n. apply getDouble_to_the_end.
  - intros r. apply (convert_refuses_ending s c r Hsize); [| exact Hc].
    intros text v n Hget Hlen.
    destruct (getBool_to_the_end _ v n Hget Hlen) as (d & Hd & Hdigit).
    exists d. split; [exact Hd | apply digit_ends_a_number, Hdigit].
  - apply space_does_not_end_a_number.
Qed.

(** The theorem at a depth value with a carriage return after it. *)
Lemma convert_refuses_trailing_text_witness :
  endsNumber "013" = false /\
  Z.of_nat (String.length ("30" ++ String "013" EmptyString)) < 2 ^ 64 /\
  fst (convert ("30" ++ String "013" EmptyString) 0) = false.
Proof.
  split; [reflexivity |]. split; [reflexivity |].
  exact (proj1 (convert_refuses_trailing_text "30" "013" eq_refl eq_refl) 0).
Defined.

(** * Further properties: opening a call file *)

Lemma parseAndRecord_is_open parseHeader st :
  is_open (snd (parseAndRecord parseHeader st))
  = fst (parseAndRecord parseHeader st).
Proof. unfold parseAndRecord. destruct (parseHeader st). reflexivity. Qed.

(** X9: [open(filename)] has a defined result exactly when the last
    piece of the name, split at the dots, is [vcf], [gz] or [bgz]; for
    any other name no [return] statement is reached.  Whenever one of
    the [open] functions returns, [is_open()] afterwards answers the
    value returned, whatever [parseHeader] did to the object. *)
Theorem open_then_is_open :
  forall split parseHeader parseHeaderText filename headerStr st,
    (open split parseHeader filename st = Undefined <->
     forall extension,
       last (split filename ".") = Some extension ->
       isKnownExtension extension = false) /\
    (forall parsed st',
       open split parseHeader filename st = Defined (parsed, st') ->
       is_open st' = parsed) /\
    is_open (snd (openStream parseHeader st))
    = fst (openStream parseHeader st) /\
    is_open (snd (openForOutput parseHeaderText headerStr st))
    = fst (openForOutput parseHeaderText headerStr st).
Proof.
  intros split parseHeader parseHeaderText filename headerStr st.
  split; [| split; [| split]].
  - unfold open, isKnownExtension.
    destruct (last (split filename ".")) as [extension |].
    + destruct (String.eqb extension "vcf") eqn:Hvcf,
               (String.eqb extension "gz") eqn:Hgz,
               (String.eqb extension "bgz") eqn:Hbgz; cbn;
        try (split; [discriminate |]; intros Hext;
             specialize (Hext extension eq_refl);
             rewrite Hvcf, Hgz, Hbgz in Hext; discriminate Hext).
      split; [| reflexivity]. intros _ ext [= <-].
      rewrite Hvcf, Hgz, Hbgz. reflexivity.
    + split; [| reflexivity]. intros _ ext Hext. discriminate Hext.
  - intros parsed st'. unfold open.
    destruct (last (split filename ".")) as [extension |]; [| discriminate].
    unfold openFile, openTabix.
    destruct (String.eqb extension "vcf").
    { intros [= Hopen].
      match type of Hopen with
      | parseAndRecord _ ?s = _ =>
          pose proof (parseAndRecord_is_open parseHeader s) as His
      end.
      rewrite Hopen in His. exact His. }
    destruct (String.eqb extension "gz" || String.eqb extension "bgz");
      [| discriminate].
    intros [= Hopen].
    match type of Hopen with
    | parseAndRecord _ ?s = _ =>
        pose proof (parseAndRecord_is_open parseHeader s) as His
    end.
    rewrite Hopen in His. exact His.
  - apply parseAndRecord_is_open.
  - unfold openForOutput. destruct (parseHeaderText headerStr st).
    reflexivity.
Qed.

(** * Further properties of the tokenizer and the parser *)

(** ** The lexemes of a filter spec *)

Lemma append_assoc_string (a b c : string) :
  ((a ++ b) ++ c = a ++ (b ++ c))%string.
Proof.
  induction a as [| x rest IH]; cbv [String.append]; fold String.append;
    [reflexivity | rewrite IH; reflexivity].
Qed.

Lemma append_empty_r (a : string) : (a ++ EmptyString)%string = a.
Proof.
  induction a as [| x rest IH]; cbv [String.append]; fold String.append;
    [reflexivity | rewrite IH; reflexivity].
Qed.

Lemma catenate_app l1 l2 :
  catenate (l1 ++ l2) = (catenate l1 ++ catenate l2)%string.
Proof.
  induction l1 as [| piece rest IH]; cbn; [reflexivity |].
  rewrite IH, append_assoc_string. reflexivity.
Qed.

Lemma catenate_flushLexeme lexeme : catenate (flushLexeme lexeme) = lexeme.
Proof.
  destruct lexeme; cbn [flushLexeme catenate]; [reflexivity |].
  apply append_empty_r.
Qed.

Lemma allChars_snoc p s c :
  allChars p (s ++ String c EmptyString) = allChars p s && p c.
Proof.
  induction s as [| x rest IH]; cbv [String.append]; fold String.append; cbn.
  - apply andb_comm.
  - rewrite IH. apply andb_assoc.
Qed.

Lemma isLexeme_operand_run lexeme :
  lexeme <> EmptyString -> allChars isOperandChar lexeme = true ->
  isLexeme lexeme = true.
Proof.
  destruct lexeme as [| c [| c' rest]]; intros Hne Hrun;
    [contradiction Hne; reflexivity | | exact Hrun].
  cbn in *. rewrite andb_true_r in Hrun. rewrite Hrun. apply orb_true_r.
Qed.

Lemma flushLexeme_lexemes lexeme :
  allChars isOperandChar lexeme = true ->
  Forall (fun l => isLexeme l = true) (flushLexeme lexeme).
Proof.
  intros Hrun. destruct lexeme as [| c rest] eqn:Hl; cbn [flushLexeme];
    constructor; [| constructor].
  apply isLexeme_operand_run; [discriminate | exact Hrun].
Qed.

Lemma scanFilterSpec_invariant filterspec :
  forall lexeme,
    allChars isOperandChar lexeme = true ->
    catenate (scanFilterSpec filterspec lexeme)
    = (lexeme ++ stripSpace filterspec)%string /\
    Forall (fun l => isLexeme l = true) (scanFilterSpec filterspec lexeme).
Proof.
  induction filterspec as [| c rest IH]; intros lexeme Hrun;
    cbn [scanFilterSpec stripSpace].
  - split; [| apply flushLexeme_lexemes, Hrun].
    rewrite catenate_flushLexeme, append_empty_r. reflexivity.
  - destruct (IH EmptyString eq_refl) as [Hcat Hall].
    destruct (isOperatorChar c || isParanChar c) eqn:Hop.
    + assert (Hspace : isspace c = false).
      { revert Hop. clear. by_character c; intros H;
          solve [reflexivity | discriminate H]. }
      rewrite Hspace. split.
      * rewrite !catenate_app, catenate_flushLexeme, Hcat. cbn.
        reflexivity.
      * apply Forall_app. split; [apply flushLexeme_lexemes, Hrun |].
        constructor; [| exact Hall]. cbn. rewrite Hop. reflexivity.
    + destruct (isspace c) eqn:Hspace.
      * split.
        -- rewrite catenate_app, catenate_flushLexeme, Hcat. reflexivity.
        -- apply Forall_app. split; [apply flushLexeme_lexemes, Hrun |].
           exact Hall.
      * destruct (IH (lexeme ++ String c EmptyString)%string) as [Hcat' Hall'].
        { rewrite allChars_snoc, Hrun. unfold isOperandChar.
          rewrite Hop, Hspace. reflexivity. }
        split; [| exact Hall'].
        rewrite Hcat', append_assoc_string. reflexivity.
Qed.

(** X10: the scan of a filter spec loses nothing but white space: the
    lexemes, put one after the other, are the spec without its
    white-space characters; and every lexeme is one operator or
    parenthesis character or a non-empty run free of operator characters,
    parentheses and white space. *)
Theorem scanFilterSpec_keeps_all_but_space :
  forall filterspec : string,
    catenate (scanFilterSpec filterspec EmptyString) = stripSpace filterspec /\
    Forall (fun lexeme => isLexeme lexeme = true)
      (scanFilterSpec filterspec EmptyString).
Proof.
  intros filterspec.
  exact (scanFilterSpec_invariant filterspec EmptyString eq_refl).
Qed.

(** ** The parser: balance of parentheses *)

Lemma operand_is_no_parenthesis token :
  isOperand token = true ->
  isLeftParenthesis token = false /\ isRightParenthesis token = false /\
  isOperator token = false.
Proof. by_token_type token; intros H; solve [discriminate H | auto]. Qed.

Lemma operator_is_the_rest token :
  isOperand token = false -> isLeftParenthesis token = false ->
  isRightParenthesis token = false -> isOperator token = true.
Proof.
  by_token_type token; intros H1 H2 H3;
    solve [discriminate | reflexivity].
Qed.

Lemma leftParenthesis_is_no_operand token :
  isLeftParenthesis token = true ->
  isOperand token = false /\ isRightParenthesis token = false.
Proof. by_token_type token; intros H; solve [discriminate H | auto]. Qed.

Lemma wellStacked_cons token operators :
  isOperand token = false -> isRightParenthesis token = false ->
  wellStacked operators -> wellStacked (token :: operators).
Proof. intros H1 H2 Hops. constructor; [split |]; assumption. Qed.

Lemma leftParentheses_cons token operators :
  leftParentheses (token :: operators)
  = ((if isLeftParenthesis token then 1 else 0) + leftParentheses operators)%nat.
Proof.
  unfold leftParentheses. cbn. destruct (isLeftParenthesis token); reflexivity.
Qed.

Lemma popToLeftParenthesis_balance operators output :
  wellStacked operators ->
  match popToLeftParenthesis operators output with
  | Returns popped =>
      wellStacked (fst popped) /\
      S (leftParentheses (fst popped)) = leftParentheses operators
  | Fails e => e = UnbalancedParentheses /\ leftParentheses operators = 0%nat
  | Exits _ _ => False
  end.
Proof.
  revert output.
  induction operators as [| top rest IH]; intros output Hops;
    cbn [popToLeftParenthesis]; [split; reflexivity |].
  inversion Hops as [| ? ? Htop Hrest]; subst.
  rewrite leftParentheses_cons.
  destruct (isLeftParenthesis top); [split; [exact Hrest | reflexivity] |].
  apply IH, Hrest.
Qed.

Lemma popTighter_balance op operators output :
  isOperand op = false -> wellStacked operators ->
  match popTighter op operators output with
  | Returns popped =>
      wellStacked (fst popped) /\
      leftParentheses (fst popped) = leftParentheses operators
  | _ => False
  end.
Proof.
  intros Hop. revert output.
  induction operators as [| top rest IH]; intros output Hops;
    cbn [popTighter]; [split; [constructor | reflexivity] |].
  inversion Hops as [| ? ? [Htop Hright] Hrest]; subst.
  rewrite Hright, orb_false_r.
  destruct (isLeftParenthesis top) eqn:Hleft; [split; [exact Hops | reflexivity] |].
  destruct (priority_of_non_operand top Htop) as [ptop ->].
  destruct (priority_of_non_operand op Hop) as [pop ->]. cbn [bindO].
  destruct ((ptop >? pop) || (ptop =? pop) && isLeftAssociative op).
  - specialize (IH (output ++ [top])%list Hrest).
    destruct (popTighter op rest (output ++ [top])) as [popped | |];
      [| exact IH | exact IH].
    rewrite leftParentheses_cons, Hleft. exact IH.
  - split; [exact Hops | reflexivity].
Qed.

Lemma popRemaining_balance operators output :
  wellStacked operators ->
  match popRemaining operators output with
  | Returns _ => leftParentheses operators = 0%nat
  | Fails e => e = UnbalancedParentheses /\ leftParentheses operators <> 0%nat
  | Exits _ _ => False
  end.
Proof.
  revert output.
  induction operators as [| top rest IH]; intros output Hops;
    cbn [popRemaining]; [reflexivity |].
  inversion Hops as [| ? ? [Htop Hright] Hrest]; subst.
  rewrite Hright, orb_false_r, leftParentheses_cons.
  destruct (isLeftParenthesis top); [split; [reflexivity | discriminate] |].
  apply IH, Hrest.
Qed.

Lemma infixToPostfix_balance tokens :
  forall operators output,
    wellStacked operators ->
    match infixToPostfix tokens operators output with
    | Returns _ =>
        parenthesesBalanced (leftParentheses operators) tokens = true
    | Fails e =>
        e = UnbalancedParentheses /\
        parenthesesBalanced (leftParentheses operators) tokens = false
    | Exits _ _ => False
    end.
Proof.
  induction tokens as [| token rest IH]; intros operators output Hops;
    cbn [infixToPostfix parenthesesBalanced].
  - pose proof (popRemaining_balance operators output Hops) as Hpop.
    destruct (popRemaining operators output) as [rules | e | st msg];
      [rewrite Hpop; reflexivity | | exact Hpop].
    destruct Hpop as [-> Hpop]. split; [reflexivity |].
    apply Nat.eqb_neq, Hpop.
  - destruct (isOperand token) eqn:Hoperand.
    { destruct (operand_is_no_parenthesis token Hoperand) as (-> & -> & _).
      apply IH, Hops. }
    destruct (isLeftParenthesis token) eqn:Hleft.
    { destruct (leftParenthesis_is_no_operand token Hleft) as [_ Hright].
      specialize (IH (token :: operators) output
                    (wellStacked_cons _ _ Hoperand Hright Hops)).
      rewrite leftParentheses_cons, Hleft in IH. exact IH. }
    destruct (isRightParenthesis token) eqn:Hright.
    + pose proof (popToLeftParenthesis_balance operators output Hops) as Hpop.
      destruct (popToLeftParenthesis operators output)
        as [popped | e | st msg]; cbn [bindO]; [| | exact Hpop].
      * destruct Hpop as [Hstack <-]. apply IH, Hstack.
      * destruct Hpop as [-> ->]. split; reflexivity.
    + pose proof (popTighter_balance token operators output Hoperand Hops)
        as Hpop.
      destruct (popTighter token operators output) as [popped | e | st msg];
        cbn [bindO]; [| contradiction | contradiction].
      destruct Hpop as [Hstack <-].
      specialize (IH (token :: fst popped) (snd popped)
                    (wellStacked_cons _ _ Hoperand Hright Hstack)).
      rewrite leftParentheses_cons, Hleft in IH. exact IH.
Qed.

(** X11: compiling a filter spec fails in two ways only: with the syntax
    error of the tokenizer, or, when the spec tokenizes, with
    unbalanced parentheses, which happens exactly when the parentheses
    of the token sequence do not match; otherwise it returns a filter. *)
Theorem compilation_fails_on_unbalanced_parentheses_only :
  forall filterspec filtertype variables,
    match tokenizeFilterSpec filterspec variables with
    | Returns tokens =>
        if parenthesesBalanced 0 tokens
        then exists rules,
               newVariantFilter filterspec filtertype variables
               = Returns {| VariantFilter.spec := filterspec;
                            VariantFilter.tokens := tokens;
                            VariantFilter.rules := rules;
                            VariantFilter.type := filtertype |}
        else newVariantFilter filterspec filtertype variables
             = Fails UnbalancedParentheses
    | Fails e =>
        newVariantFilter filterspec filtertype variables = Fails e /\
        exists lexeme, e = SyntaxError lexeme
    | Exits _ _ => False
    end.
Proof.
  intros filterspec filtertype variables. unfold newVariantFilter.
  pose proof (makeRuleTokens_recoverable
                (scanFilterSpec filterspec EmptyString) variables) as Hrec.
  unfold tokenizeFilterSpec in *.
  destruct (makeRuleTokens (scanFilterSpec filterspec EmptyString) variables)
    as [tokens | e | st msg] eqn:Htokens; cbn [bindO];
    [| | discriminate Hrec].
  - pose proof (infixToPostfix_balance tokens [] [] (List.Forall_nil _)) as Hbal.
    change (leftParentheses []) with 0%nat in Hbal.
    destruct (infixToPostfix tokens [] []) as [rules | e | st msg];
      cbn [bindO]; [| | contradiction].
    + rewrite Hbal. exists rules. reflexivity.
    + destruct Hbal as [-> ->]. reflexivity.
  - split; [reflexivity |].
    clear Hrec. revert e Htokens.
    induction (scanFilterSpec filterspec EmptyString) as [| lexeme rest IH];
      intros e; cbn; [discriminate |].
    destruct (makeRuleToken lexeme variables) as [token | e' | st msg]
      eqn:Hfirst; cbn.
    + destruct (makeRuleTokens rest variables) as [ts | e'' | st msg];
        cbn; [discriminate | | discriminate].
      intros [= <-]. apply (IH e''). reflexivity.
    + intros [= <-]. apply makeRuleToken_fails in Hfirst. eauto.
    + discriminate.
Qed.



(** ** The parser: what the evaluation sequence is made of *)

Local Open Scope list_scope.

Lemma withoutParentheses_app l1 l2 :
  withoutParentheses (l1 ++ l2)
  = withoutParentheses l1 ++ withoutParentheses l2.
Proof. apply List.filter_app. Qed.

Lemma filter_isOperand_wellStacked operators :
  wellStacked operators -> List.filter isOperand operators = [].
Proof.
  induction 1 as [| token rest [Htoken _] _ IH]; cbn; [reflexivity |].
  rewrite Htoken. exact IH.
Qed.

Lemma wellStacked_app l1 l2 :
  wellStacked (l1 ++ l2) -> wellStacked l1 /\ wellStacked l2.
Proof. apply Forall_app. Qed.

Lemma withoutParentheses_keep token tokens :
  isLeftParenthesis token = false -> isRightParenthesis token = false ->
  withoutParentheses tokens = tokens ->
  withoutParentheses (token :: tokens) = token :: tokens.
Proof.
  intros Hleft Hright Hno. unfold withoutParentheses in *.
  cbn [List.filter]. unfold isParenthesis at 1.
  rewrite Hleft, Hright. cbn [orb negb]. rewrite Hno. reflexivity.
Qed.

Lemma withoutParentheses_drop token tokens :
  isParenthesis token = true ->
  withoutParentheses (token :: tokens) = withoutParentheses tokens.
Proof.
  intros Hparen. unfold withoutParentheses. cbn [List.filter].
  rewrite Hparen. reflexivity.
Qed.

Lemma withoutParentheses_cons_keep token tokens :
  isParenthesis token = false ->
  withoutParentheses (token :: tokens) = token :: withoutParentheses tokens.
Proof.
  intros Hparen. unfold withoutParentheses. cbn [List.filter].
  rewrite Hparen. reflexivity.
Qed.

(** What the three pops take from the stack, in stack order. *)
Lemma popToLeftParenthesis_split operators output popped :
  wellStacked operators ->
  popToLeftParenthesis operators output = Returns popped ->
  exists ops paren,
    operators = ops ++ paren :: fst popped /\
    snd popped = output ++ ops /\
    isLeftParenthesis paren = true /\
    withoutParentheses ops = ops.
Proof.
  revert output.
  induction operators as [| top rest IH]; intros output Hops;
    cbn [popToLeftParenthesis]; [discriminate |].
  inversion Hops as [| ? ? [Htop Hright] Hrest]; subst.
  destruct (isLeftParenthesis top) eqn:Hleft.
  - intros [= <-]. exists [], top. cbn. rewrite app_nil_r. auto.
  - intros Hpop.
    destruct (IH _ Hrest Hpop) as (ops & paren & Hstack & Hout & ? & Hno).
    exists (top :: ops), paren.
    split; [rewrite Hstack; reflexivity |].
    split; [rewrite Hout, <- app_assoc; reflexivity |].
    split; [assumption |].
    apply withoutParentheses_keep; assumption.
Qed.

Lemma popTighter_split op operators output popped :
  wellStacked operators ->
  popTighter op operators output = Returns popped ->
  exists ops,
    operators = ops ++ fst popped /\
    snd popped = output ++ ops /\
    withoutParentheses ops = ops.
Proof.
  revert output.
  induction operators as [| top rest IH]; intros output Hops;
    cbn [popTighter].
  - intros [= <-]. exists []. cbn. rewrite app_nil_r. auto.
  - inversion Hops as [| ? ? [Htop Hright] Hrest]; subst.
    rewrite Hright, orb_false_r.
    destruct (isLeftParenthesis top) eqn:Hleft.
    { intros [= <-]. exists []. cbn. rewrite app_nil_r. auto. }
    destruct (priority top) as [ptop | |]; cbn [bindO]; [| discriminate ..].
    destruct (priority op) as [pop | |]; cbn [bindO]; [| discriminate ..].
    destruct ((ptop >? pop) || (ptop =? pop) && isLeftAssociative op).
    + intros Hpop. destruct (IH _ Hrest Hpop) as (ops & Hstack & Hout & Hno).
      exists (top :: ops).
      split; [rewrite Hstack; reflexivity |].
      split; [rewrite Hout, <- app_assoc; reflexivity |].
      apply withoutParentheses_keep; assumption.
    + intros [= <-]. exists []. cbn. rewrite app_nil_r. auto.
Qed.

Lemma popRemaining_split operators output rules :
  wellStacked operators ->
  popRemaining operators output = Returns rules ->
  rules = output ++ operators /\ withoutParentheses operators = operators.
Proof.
  revert output.
  induction operators as [| top rest IH]; intros output Hops;
    cbn [popRemaining].
  - intros [= <-]. rewrite app_nil_r. auto.
  - inversion Hops as [| ? ? [Htop Hright] Hrest]; subst.
    rewrite Hright, orb_false_r.
    destruct (isLeftParenthesis top) eqn:Hleft; [discriminate |].
    intros Hpop. destruct (IH _ Hrest Hpop) as [-> Hno].
    split; [rewrite <- app_assoc; reflexivity |].
    apply withoutParentheses_keep; assumption.
Qed.

Lemma infixToPostfix_content tokens :
  forall operators output rules,
    wellStacked operators ->
    infixToPostfix tokens operators output = Returns rules ->
    Permutation rules
      (output ++ withoutParentheses operators ++ withoutParentheses tokens) /\
    List.filter isOperand rules
    = List.filter isOperand output ++ List.filter isOperand tokens.
Proof.
  induction tokens as [| token rest IH]; intros operators output rules Hops;
    cbn [infixToPostfix].
  - intros Hpop.
    destruct (popRemaining_split _ _ _ Hops Hpop) as [-> Hno].
    rewrite Hno. change (withoutParentheses []) with (@nil RuleToken.t).
    rewrite !app_nil_r, List.filter_app.
    rewrite (filter_isOperand_wellStacked _ Hops), app_nil_r.
    split; reflexivity.
  - destruct (isOperand token) eqn:Hoperand.
    { destruct (operand_is_no_parenthesis token Hoperand) as (Hl & Hr & _).
      intros Hrun. destruct (IH _ _ _ Hops Hrun) as [Hperm Hfilter].
      split.
      - rewrite Hperm, withoutParentheses_cons_keep
          by (unfold isParenthesis; rewrite Hl, Hr; reflexivity).
        rewrite <- !app_assoc.
        apply Permutation_app_head. cbn [app].
        apply Permutation_middle.
      - rewrite Hfilter, List.filter_app. cbn [List.filter].
        rewrite Hoperand, <- app_assoc. reflexivity. }
    destruct (isLeftParenthesis token) eqn:Hleft.
    { destruct (leftParenthesis_is_no_operand token Hleft) as [_ Hright].
      intros Hrun.
      destruct (IH _ _ _ (wellStacked_cons _ _ Hoperand Hright Hops) Hrun)
        as [Hperm Hfilter].
      assert (Hparen : isParenthesis token = true)
        by (unfold isParenthesis; rewrite Hleft; reflexivity).
      rewrite withoutParentheses_drop in Hperm by exact Hparen.
      rewrite withoutParentheses_drop by exact Hparen.
      cbn [List.filter]. rewrite Hoperand. split; assumption. }
    destruct (isRightParenthesis token) eqn:Hright.
    + destruct (popToLeftParenthesis operators output) as [popped | |]
        eqn:Hpop; cbn [bindO]; [| discriminate ..].
      destruct (popToLeftParenthesis_split _ _ _ Hops Hpop)
        as (ops & paren & Hstack & Hout & Hparen & Hno).
      subst operators.
      destruct (wellStacked_app _ _ Hops) as [Hops1 Hops2].
      inversion Hops2 as [| ? ? _ Hrest]; subst.
      intros Hrun. destruct (IH _ _ _ Hrest Hrun) as [Hperm Hfilter].
      rewrite Hout in Hperm, Hfilter.
      assert (Hp1 : isParenthesis paren = true)
        by (unfold isParenthesis; rewrite Hparen; reflexivity).
      assert (Hp2 : isParenthesis token = true)
        by (unfold isParenthesis; rewrite Hright; apply orb_true_r).
      split.
      * rewrite Hperm, withoutParentheses_app, Hno.
        rewrite !withoutParentheses_drop by assumption.
        rewrite <- !app_assoc. reflexivity.
      * rewrite Hfilter, List.filter_app.
        rewrite (filter_isOperand_wellStacked _ Hops1), app_nil_r.
        cbn [List.filter]. rewrite Hoperand. reflexivity.
    + destruct (popTighter token operators output) as [popped | |]
        eqn:Hpop; cbn [bindO]; [| discriminate ..].
      destruct (popTighter_split _ _ _ _ Hops Hpop)
        as (ops & Hstack & Hout & Hno).
      subst operators.
      destruct (wellStacked_app _ _ Hops) as [Hops1 Hops2].
      intros Hrun.
      destruct (IH _ _ _ (wellStacked_cons _ _ Hoperand Hright Hops2) Hrun)
        as [Hperm Hfilter].
      rewrite Hout in Hperm, Hfilter.
      assert (Hp : isParenthesis token = false)
        by (unfold isParenthesis; rewrite Hleft, Hright; reflexivity).
      split.
      * rewrite Hperm, withoutParentheses_app, Hno.
        rewrite !withoutParentheses_cons_keep by exact Hp.
        rewrite <- !app_assoc.
        do 2 apply Permutation_app_head. cbn [app].
        apply Permutation_middle.
      * rewrite Hfilter, List.filter_app.
        rewrite (filter_isOperand_wellStacked _ Hops1), app_nil_r.
        cbn [List.filter]. rewrite Hoperand. reflexivity.
Qed.

(** X12: the evaluation sequence of a compiled filter is a rearrangement
    of the tokens of the spec that are no parentheses: nothing is lost
    and nothing is added, no parenthesis remains, and the operands stand
    in the order in which the spec has them. *)
Theorem rules_rearrange_the_tokens :
  forall filterspec filtertype variables f,
    newVariantFilter filterspec filtertype variables = Returns f ->
    Permutation (VariantFilter.rules f)
      (withoutParentheses (VariantFilter.tokens f)) /\
    Forall (fun token => isParenthesis token = false) (VariantFilter.rules f) /\
    List.filter isOperand (VariantFilter.rules f)
    = List.filter isOperand (VariantFilter.tokens f).
Proof.
  intros filterspec filtertype variables f. unfold newVariantFilter.
  destruct (tokenizeFilterSpec filterspec variables) as [tokens | |];
    cbn [bindO]; [| discriminate ..].
  destruct (infixToPostfix tokens [] []) as [rules | |] eqn:Hrules;
    cbn [bindO]; [| discriminate ..].
  intros [= <-]. cbn.
  destruct (infixToPostfix_content tokens [] [] rules (List.Forall_nil _) Hrules)
    as [Hperm Hfilter].
  cbn in Hperm, Hfilter. split; [exact Hperm |]. split; [| exact Hfilter].
  rewrite Hperm. unfold withoutParentheses.
  apply List.Forall_forall. intros token [_ Hno]%List.filter_In.
  apply negb_true_iff, Hno.
Qed.

Lemma rules_rearrange_the_tokens_witness :
  exists f,
    newVariantFilter "(1 + 2) * 3" VariantFilter.RECORD ∅ = Returns f /\
    Forall (fun token => isParenthesis token = false) (VariantFilter.rules f).
Proof.
  eexists. split; [vm_compute; reflexivity |].
  eapply (fun H => proj1 (proj2 (rules_rearrange_the_tokens
                                   "(1 + 2) * 3" VariantFilter.RECORD ∅ _ H))).
  vm_compute. reflexivity.
Defined.

(** ** The parser: how operators group *)

Lemma binary_operator_facts op :
  isBinaryOperator op = true ->
  isOperand op = false /\ isLeftParenthesis op = false /\
  isRightParenthesis op = false /\ isLeftAssociative op = true /\
  exists p, priority op = Returns p /\ p <> 6.
Proof.
  by_token_type op; intros H; try discriminate H;
    repeat split; eexists; split; solve [reflexivity | discriminate].
Qed.

Lemma not_operator_facts op :
  type_is op NOT_OPERATOR = true ->
  isOperand op = false /\ isLeftParenthesis op = false /\
  isRightParenthesis op = false /\ isLeftAssociative op = false /\
  priority op = Returns 6.
Proof.
  by_token_type op; intros H; try discriminate H; repeat split.
Qed.

(** Runs the parser on a token list whose classification is known from
    the hypotheses. *)
Ltac run_parser :=
  repeat first
    [ progress cbn [infixToPostfix popTighter popRemaining
                    popToLeftParenthesis bindO app fst snd orb andb]
    | match goal with
      | H : _ = _ |- _ => progress rewrite H
      end ].

(** X13: without parentheses, two binary operators group by priority and,
    at equal priority, from the left: for operands a, b, c the sequence
    a op1 b op2 c compiles to a b op1 c op2 when op1 binds at least as
    tightly as op2, and to a b c op2 op1 when op2 binds tighter. *)
Theorem binary_operators_group_by_priority :
  forall (a b c op1 op2 : RuleToken.t) (p1 p2 : Z),
    isOperand a = true -> isOperand b = true -> isOperand c = true ->
    isBinaryOperator op1 = true -> isBinaryOperator op2 = true ->
    priority op1 = Returns p1 -> priority op2 = Returns p2 ->
    infixToPostfix [a; op1; b; op2; c] [] []
    = Returns (if p2 <=? p1 then [a; b; op1; c; op2]
               else [a; b; c; op2; op1]).
Proof.
  intros a b c op1 op2 p1 p2 Ha Hb Hc Hop1 Hop2 Hp1 Hp2.
  destruct (binary_operator_facts op1 Hop1) as (Ho1 & Hl1 & Hr1 & _ & _).
  destruct (binary_operator_facts op2 Hop2) as (Ho2 & Hl2 & Hr2 & Hassoc & _).
  clear Hop1 Hop2.
  assert (Hcond : (p1 >? p2) || (p1 =? p2) && true = (p2 <=? p1)).
  { destruct (Z.leb_spec p2 p1), (Z.gtb_spec p1 p2), (Z.eqb_spec p1 p2);
      cbn; solve [reflexivity | lia]. }
  run_parser. destruct (p2 <=? p1); run_parser; reflexivity.
Qed.

(** The theorem at 1 - 2 + 3, which groups from the left. *)
Lemma binary_operators_group_by_priority_witness :
  infixToPostfix
    [numberToken "1" 1; operatorToken SUBTRACT_OPERATOR "-";
     numberToken "2" 2; operatorToken ADD_OPERATOR "+"; numberToken "3" 3]
    [] []
  = Returns
      [numberToken "1" 1; numberToken "2" 2;
       operatorToken SUBTRACT_OPERATOR "-"; numberToken "3" 3;
       operatorToken ADD_OPERATOR "+"].
Proof.
  exact (binary_operators_group_by_priority
           (numberToken "1" 1) (numberToken "2" 2) (numberToken "3" 3)
           (operatorToken SUBTRACT_OPERATOR "-")
           (operatorToken ADD_OPERATOR "+") 7 7
           eq_refl eq_refl eq_refl eq_refl eq_refl eq_refl eq_refl).
Defined.

(** X14: logical not applies to what follows it as far as the next
    operator that binds less tightly: ! a op b compiles to a ! b op when
    op is a comparison, and, or or, and to a b op ! when op is an
    arithmetic operator; and ! ! a compiles to a ! !. *)
Theorem not_operator_scope :
  forall (a b nt op : RuleToken.t) (p : Z),
    isOperand a = true -> isOperand b = true ->
    type_is nt NOT_OPERATOR = true ->
    isBinaryOperator op = true -> priority op = Returns p ->
    infixToPostfix [nt; a; op; b] [] []
    = Returns (if p <? 6 then [a; nt; b; op] else [a; b; op; nt]) /\
    infixToPostfix [nt; nt; a] [] [] = Returns [a; nt; nt].
Proof.
  intros a b nt op p Ha Hb Hnt Hop Hp.
  destruct (not_operator_facts nt Hnt) as (Hon & Hln & Hrn & Hassocn & Hpn).
  destruct (binary_operator_facts op Hop)
    as (Hoo & Hlo & Hro & Hassoc & p' & Hp' & Hne).
  assert (p' = p) as -> by congruence.
  clear Hnt Hop Hp'.
  assert (Hcond : (6 >? p) || (6 =? p) && true = (p <? 6)).
  { destruct (Z.ltb_spec p 6), (Z.gtb_spec 6 p), (Z.eqb_spec 6 p);
      cbn; solve [reflexivity | lia]. }
  assert (Hself : (6 >? 6) || (6 =? 6) && false = false) by reflexivity.
  split.
  - run_parser. destruct (p <? 6); run_parser; reflexivity.
  - run_parser. reflexivity.
Qed.

Lemma not_operator_scope_witness :
  infixToPostfix
    [operatorToken NOT_OPERATOR "!"; variableToken "A" FIELD_BOOL;
     operatorToken AND_OPERATOR "&"; variableToken "B" FIELD_BOOL] [] []
  = Returns
      [variableToken "A" FIELD_BOOL; operatorToken NOT_OPERATOR "!";
       variableToken "B" FIELD_BOOL; operatorToken AND_OPERATOR "&"].
Proof.
  exact (proj1 (not_operator_scope
                  (variableToken "A" FIELD_BOOL) (variableToken "B" FIELD_BOOL)
                  (operatorToken NOT_OPERATOR "!")
                  (operatorToken AND_OPERATOR "&") 4
                  eq_refl eq_refl eq_refl eq_refl eq_refl)).
Defined.

(** * Further properties of the genotype functions *)

Lemma splitOn_not_nil p s : splitOn p s <> [].
Proof. rewrite (splitOn_cons p s). discriminate. Qed.

Lemma lookup_countAllele_positive a decomposition :
  (forall b count, decomposition !! b = Some count -> 1 <= count) ->
  forall b count, countAllele a decomposition !! b = Some count -> 1 <= count.
Proof.
  intros Hpos b count. unfold countAllele.
  destruct (decide (a = b)) as [-> | Hne].
  - rewrite lookup_insert_eq. intros [= <-].
    destruct (decomposition !! b) as [c |] eqn:Hb; cbn; [| lia].
    specialize (Hpos b c Hb). lia.
  - rewrite lookup_insert_ne by exact Hne. apply Hpos.
Qed.

Lemma countAlleles_returns genotype elements :
  forall decomposition m,
    countAlleles genotype elements decomposition = Returns m ->
    ploidy m = ploidy decomposition + Z.of_nat (length elements) /\
    (elements <> [] -> m <> ∅) /\
    ((forall b count, decomposition !! b = Some count -> 1 <= count) ->
     forall b count, m !! b = Some count -> 1 <= count).
Proof.
  induction elements as [| element rest IH]; intros decomposition m;
    cbn [countAlleles].
  - intros [= <-]. cbn. split; [lia |]. split; [congruence | auto].
  - destruct (alleleIndex genotype element) as [a | |]; cbn [bindO];
      [| discriminate ..].
    intros Hrest. destruct (IH _ _ Hrest) as (Hploidy & Hne & Hpos).
    rewrite ploidy_countAllele in Hploidy.
    split; [cbn [length]; lia |]. split.
    + intros _. destruct rest as [| next rest'].
      * cbn in Hrest. injection Hrest as <-. apply insert_non_empty.
      * apply Hne. discriminate.
    + intros Hstart. apply Hpos.
      apply lookup_countAllele_positive, Hstart.
Qed.

Lemma countAlleles_fails genotype elements :
  forall decomposition e,
    countAlleles genotype elements decomposition = Fails e ->
    e = MalformedGenotype genotype /\
    exists element,
      In element elements /\ element <> "." /\
      (parsesFully element : option Z) = None.
Proof.
  induction elements as [| element rest IH]; intros decomposition e;
    cbn [countAlleles]; [discriminate |].
  unfold alleleIndex at 1.
  destruct (String.eqb_spec element ".") as [-> | Hne]; cbn [bindO].
  - intros Hrest. destruct (IH _ _ Hrest) as (-> & el & Hin & Hel).
    split; [reflexivity |]. exists el. split; [right; exact Hin | exact Hel].
  - destruct (parsesFully element) as [a |] eqn:Hparse; cbn [bindO].
    + intros Hrest. destruct (IH _ _ Hrest) as (-> & el & Hin & Hel).
      split; [reflexivity |]. exists el. split; [right; exact Hin | exact Hel].
    + intros [= <-]. split; [reflexivity |]. exists element.
      split; [left; reflexivity |]. split; [exact Hne | exact Hparse].
Qed.

(** X15: whenever [decomposeGenotype] returns, for a genotype of any
    ploidy over any allele indices, the counts are all at least 1 and sum
    to the number of pieces the separators cut the string into, and
    exactly one of [isHet] and [isHom] holds; when it fails, the error
    names the genotype, and some piece is neither the missing marker nor
    a text that parses fully as an integer. *)
Theorem decomposition_counts_every_piece :
  forall genotype : string,
    match decomposeGenotype genotype with
    | Returns m =>
        ploidy m
        = Z.of_nat (length (splitOn isGenotypeSeparator genotype)) /\
        (forall a count, m !! a = Some count -> 1 <= count) /\
        xorb (isHet m) (isHom m) = true
    | Fails e =>
        e = MalformedGenotype genotype /\
        exists piece,
          In piece (splitOn isGenotypeSeparator genotype) /\
          piece <> "." /\ (parsesFully piece : option Z) = None
    | Exits _ _ => False
    end.
Proof.
  intros genotype. unfold decomposeGenotype.
  pose proof (countAlleles_recoverable genotype
                (splitOn isGenotypeSeparator genotype) ∅) as Hrec.
  destruct (countAlleles genotype (splitOn isGenotypeSeparator genotype) ∅)
    as [m | e | st msg] eqn:Hcount; [| | discriminate Hrec].
  - destruct (countAlleles_returns _ _ _ _ Hcount) as (Hploidy & Hne & Hpos).
    split; [| split].
    + rewrite Hploidy. unfold ploidy. rewrite map_fold_empty. lia.
    + apply Hpos. intros b count Hb. rewrite lookup_empty in Hb.
      discriminate Hb.
    + apply exactly_one_of_het_hom, Hne, splitOn_not_nil.
  - apply (countAlleles_fails _ _ _ _ Hcount).
Qed.

(** *** The all-missing genotype *)

Lemma countAlleles_missing genotype (pieces : list string) :
  forall count,
    countAlleles genotype (map (fun _ => ".") pieces)
      {[NULL_ALLELE := count]}
    = Returns {[NULL_ALLELE := count + Z.of_nat (length pieces)]}.
Proof.
  induction pieces as [| piece rest IH]; intros count;
    cbn [map countAlleles length].
  - rewrite Z.add_0_r. reflexivity.
  - change (alleleIndex genotype ".") with (Returns NULL_ALLELE).
    cbn [bindO]. unfold countAllele.
    rewrite lookup_singleton_eq, insert_singleton_eq. cbn [default].
    unfold id. rewrite IH.
    replace (count + 1 + Z.of_nat (length rest))
      with (count + Z.of_nat (S (length rest))) by lia.
    reflexivity.
Qed.

(** X16: the genotype that [removeFilteredGenotypes] writes decomposes
    to the null allele alone, counted once for every piece of the
    genotype it replaces: the ploidy is kept, and the call is
    homozygous-null, with no reference and no alternate allele. *)
Theorem missing_genotype_decomposition :
  forall genotype : string,
    exists m,
      decomposeGenotype (missingGenotype genotype) = Returns m /\
      m = {[NULL_ALLELE :=
              Z.of_nat (length (splitOn isGenotypeSeparator genotype))]} /\
      isNull m = true /\ isHom m = true /\ isHet m = false /\
      hasNonRef m = false /\ isHomRef m = false.
Proof.
  intros genotype. unfold decomposeGenotype.
  rewrite splitOn_missingGenotype.
  rewrite (splitOn_cons isGenotypeSeparator genotype).
  set (pieces := tl (splitOn isGenotypeSeparator genotype)).
  cbn [map countAlleles]. change (alleleIndex _ ".") with (Returns NULL_ALLELE).
  cbn [bindO]. unfold countAllele at 1.
  rewrite lookup_empty, insert_empty. cbn [default].
  rewrite countAlleles_missing. eexists. split; [reflexivity |].
  split; [f_equal; cbn [length]; lia |].
  unfold isNull, isHom, isHet, hasNonRef, isHomRef.
  rewrite map_size_singleton, map_to_list_singleton, lookup_singleton_eq.
  repeat split; try reflexivity.
Qed.

(** *** Zygosity *)

Lemma size_one_singleton (m : gmap Z Z) :
  size m = 1%nat -> exists a count, m = {[a := count]}.
Proof.
  intros Hsize. rewrite <- length_map_to_list in Hsize.
  destruct (map_to_list m) as [| [a count] [| ? ?]] eqn:Hlist;
    try discriminate Hsize.
  exists a, count. rewrite <- (list_to_map_to_list m), Hlist. reflexivity.
Qed.

(** X17: a homozygous decomposition is of exactly one of three kinds:
    homozygous reference, homozygous non-reference, or null. *)
Theorem homozygous_kinds :
  forall m : gmap Z Z,
    isHom m = true ->
    (Nat.b2n (isHomRef m) + Nat.b2n (isHomNonRef m) + Nat.b2n (isNull m)
     = 1)%nat.
Proof.
  intros m Hhom. pose proof Hhom as Hsize. unfold isHom in Hsize.
  apply Nat.eqb_eq, size_one_singleton in Hsize as (a & count & ->).
  unfold isHomRef, isHomNonRef, isNull, hasNonRef. rewrite Hhom.
  rewrite map_to_list_singleton. cbn [existsb fst andb orb].
  destruct (decide (a = 0)) as [-> | Hzero].
  - rewrite lookup_singleton_eq,
      (lookup_singleton_ne 0 NULL_ALLELE) by discriminate.
    reflexivity.
  - rewrite (lookup_singleton_ne a 0) by exact Hzero.
    destruct (decide (a = NULL_ALLELE)) as [-> | Hnull].
    + rewrite lookup_singleton_eq. reflexivity.
    + rewrite (lookup_singleton_ne a NULL_ALLELE) by exact Hnull.
      destruct (Z.eqb_spec a 0); [contradiction |].
      destruct (Z.eqb_spec a NULL_ALLELE); [contradiction |].
      reflexivity.
Qed.

Lemma homozygous_kinds_witness :
  isHom {[1 := 2]} = true /\
  (Nat.b2n (isHomRef {[1%Z := 2%Z]}) + Nat.b2n (isHomNonRef {[1%Z := 2%Z]})
   + Nat.b2n (isNull {[1%Z := 2%Z]}) = 1)%nat.
Proof.
  split; [reflexivity |].
  exact (homozygous_kinds {[1 := 2]} eq_refl).
Defined.

(** * Further properties of [removeFilteredGenotypes] *)

Lemma set_samples_same var :
  var = Variant.set_samples (Variant.samples var) var.
Proof. destruct var. reflexivity. Qed.

Lemma genotypesRemoved_refl names var : genotypesRemoved names var var.
Proof.
  split; [apply set_samples_same |]. split; [reflexivity |].
  split; [reflexivity |]. split; [left |]; reflexivity.
Qed.

Lemma sampleValue_removeGenotype var name other key :
  sampleValue (removeGenotype name var) other key
  = if decide (other = name /\ key = "GT")
    then map missingGenotype <$> sampleValue var other key
    else sampleValue var other key.
Proof.
  unfold sampleValue. rewrite removeGenotype_samples.
  destruct (decide (name = other)) as [<- | Hname].
  - rewrite lookup_alter_eq.
    destruct (Variant.samples var !! name) as [fields |]; cbn.
    + destruct (decide ("GT" = key)) as [<- | Hkey].
      * rewrite lookup_alter_eq, decide_True by auto. reflexivity.
      * rewrite lookup_alter_ne by exact Hkey.
        rewrite decide_False by (intros [_ ->]; contradiction).
        reflexivity.
    + destruct (decide _); reflexivity.
  - rewrite lookup_alter_ne by exact Hname.
    rewrite decide_False by (intros [-> _]; contradiction). reflexivity.
Qed.

Lemma genotypesRemoved_step names var var' name :
  In name names ->
  genotypesRemoved names var var' ->
  genotypesRemoved names var (removeGenotype name var').
Proof.
  intros Hin (Hframe & Hdom & Hother & Hgenotype & Houtside).
  split; [| split; [| split; [| split]]].
  - change (removeGenotype name var')
      with (Variant.set_samples
              (Variant.samples (removeGenotype name var')) var') at 1.
    generalize (Variant.samples (removeGenotype name var')). intros stored.
    rewrite Hframe. apply set_samples_set_samples.
  - intros other. rewrite <- Hdom, removeGenotype_samples.
    destruct (decide (name = other)) as [<- | Hne].
    + rewrite lookup_alter_eq. apply fmap_is_Some.
    + rewrite lookup_alter_ne by exact Hne. reflexivity.
  - intros other key Hkey. rewrite sampleValue_removeGenotype.
    rewrite decide_False by (intros [_ ->]; contradiction).
    apply Hother, Hkey.
  - intros other. rewrite sampleValue_removeGenotype.
    destruct (decide (other = name /\ "GT" = "GT")) as [[-> _] | _];
      [| apply Hgenotype].
    right. destruct (Hgenotype name) as [-> | ->]; [reflexivity |].
    destruct (sampleValue var name "GT") as [genotypes |]; cbn;
      [| reflexivity].
    f_equal. rewrite map_map. apply map_ext.
    intros genotype. apply missingGenotype_idempotent.
  - intros other Hout. rewrite removeGenotype_samples.
    rewrite lookup_alter_ne by (intros ->; contradiction).
    apply Houtside, Hout.
Qed.

Lemma forEach_genotypesRemoved f names var :
  forall done var',
    (forall name, In name done -> In name names) ->
    genotypesRemoved names var var' ->
    genotypesRemoved names var
      (snd (forEach done (removeFilteredGenotype f) var')).
Proof.
  induction done as [| name rest IH]; intros var' Hsub Hinv; [exact Hinv |].
  rewrite forEach_cons, removeFilteredGenotype_cases.
  assert (Hrest : forall n, In n rest -> In n names)
    by (intros n Hn; apply Hsub; right; exact Hn).
  destruct (fst (passes f name var')) as [[|] | e | st msg]; cbn [snd];
    try exact Hinv; apply IH; try exact Hrest; try exact Hinv.
  apply genotypesRemoved_step; [apply Hsub; left; reflexivity | exact Hinv].
Qed.

(** X18: [removeFilteredGenotypes] changes nothing but genotypes: after
    the call, whatever its outcome, every member of the record other
    than the per-sample store is as it was, the same samples are stored,
    every field other than [GT] has the values it had, each genotype is
    as it was or is its all-missing form, and a sample that is not among
    the record's sample names is untouched. *)
Theorem removeFilteredGenotypes_changes_genotypes_only :
  forall (f : VariantFilter.t) (var : Variant.t),
    genotypesRemoved (Variant.sampleNames var) var
      (snd (removeFilteredGenotypes f var)).
Proof.
  intros f var. unfold removeFilteredGenotypes, bindA, getVar.
  apply forEach_genotypesRemoved; [auto | apply genotypesRemoved_refl].
Qed.

(** * Further properties: compiling and evaluating an expression *)

(** ** The parser on a fully parenthesised expression *)

Lemma infixToPostfix_operand token rest operators output :
  isOperand token = true ->
  infixToPostfix (token :: rest) operators output
  = infixToPostfix rest operators (output ++ [token]).
Proof. intros Ht. cbn [infixToPostfix]. rewrite Ht. reflexivity. Qed.

Lemma infixToPostfix_leftParenthesis rest operators output :
  infixToPostfix (leftParenthesisToken :: rest) operators output
  = infixToPostfix rest (leftParenthesisToken :: operators) output.
Proof. reflexivity. Qed.

(** An operator read right after a left parenthesis is pushed. *)
Lemma infixToPostfix_operator_after_parenthesis op rest operators output :
  isOperator op = true ->
  infixToPostfix (op :: rest) (leftParenthesisToken :: operators) output
  = infixToPostfix rest (op :: leftParenthesisToken :: operators) output.
Proof. by_token_type op; intros H; solve [discriminate H | reflexivity]. Qed.

(** A right parenthesis read when an operator lies on the matching left
    parenthesis sends the operator to the output. *)
Lemma infixToPostfix_close op rest operators output :
  isOperator op = true ->
  infixToPostfix (rightParenthesisToken :: rest)
    (op :: leftParenthesisToken :: operators) output
  = infixToPostfix rest operators (output ++ [op]).
Proof. by_token_type op; intros H; solve [discriminate H | reflexivity]. Qed.

Lemma binary_operator_is_operator op :
  isBinaryOperator op = true -> isOperator op = true.
Proof. unfold isBinaryOperator. intros [H _]%andb_true_iff. exact H. Qed.

Lemma infixToPostfix_expression e :
  wellFormed e = true ->
  forall rest operators output,
    infixToPostfix (infix e ++ rest) operators output
    = infixToPostfix rest operators (output ++ postfix e).
Proof.
  induction e as [token | op e IH | op lhs IHl rhs IHr];
    cbn [wellFormed infix postfix]; intros Hwf rest operators output.
  - apply infixToPostfix_operand, Hwf.
  - apply andb_true_iff in Hwf as [[Hop _]%andb_true_iff He].
    cbn [app]. rewrite infixToPostfix_leftParenthesis.
    rewrite infixToPostfix_operator_after_parenthesis by exact Hop.
    rewrite <- app_assoc, (IH He). cbn [app].
    rewrite infixToPostfix_close by exact Hop.
    rewrite <- app_assoc. reflexivity.
  - apply andb_true_iff in Hwf as [[Hop Hl]%andb_true_iff Hr].
    apply binary_operator_is_operator in Hop.
    cbn [app]. rewrite infixToPostfix_leftParenthesis.
    rewrite <- app_assoc, (IHl Hl). cbn [app].
    rewrite <- app_assoc. cbn [app].
    (* the operator meets the left parenthesis of this application only
       after the left operand has left the stack as it found it *)
    rewrite infixToPostfix_operator_after_parenthesis by exact Hop.
    rewrite (IHr Hr). cbn [app].
    rewrite infixToPostfix_close by exact Hop.
    rewrite <- !app_assoc. reflexivity.
Qed.

(** ** The evaluator on a postfix sequence *)

Lemma bindA_assoc {A B C} (m : Action A) (k : A -> Action B)
    (h : B -> Action C) var :
  bindA (bindA m k) h var = bindA m (fun a => bindA (k a) h) var.
Proof.
  unfold bindA. destruct (m var) as [[a | e | st msg] var']; reflexivity.
Qed.

Lemma bindA_ext {A B} (m : Action A) (k k' : A -> Action B) var :
  (forall a var', k a var' = k' a var') -> bindA m k var = bindA m k' var.
Proof.
  intros Hk. unfold bindA.
  destruct (m var) as [[a | e | st msg] var']; [apply Hk | reflexivity ..].
Qed.

Lemma evaluateToken_operator op sample index results :
  isOperator op = true ->
  evaluateToken op sample index results
  = liftO (applyOperator op results).
Proof.
  unfold evaluateToken.
  by_token_type op; intros H; solve [discriminate H | reflexivity].
Qed.

(** Evaluating the postfix sequence of an expression, with more rules to
    follow, is evaluating the expression and going on with its value on
    the stack. *)
Lemma evaluateRules_expression e sample index :
  wellFormed e = true ->
  forall rest results var,
    evaluateRules (postfix e ++ rest) sample index results var
    = bindA (value e sample index)
        (fun v => evaluateRules rest sample index (v :: results)) var.
Proof.
  induction e as [token | op e IH | op lhs IHl rhs IHr];
    cbn [wellFormed postfix value]; intros Hwf rest results var.
  - cbn [app evaluateRules]. unfold evaluateToken. rewrite Hwf.
    rewrite bindA_assoc. apply bindA_ext. reflexivity.
  - apply andb_true_iff in Hwf as [[Hop Hnot]%andb_true_iff He].
    rewrite <- app_assoc, (IH He), bindA_assoc.
    apply bindA_ext. intros v var'.
    cbn [app evaluateRules].
    rewrite (evaluateToken_operator op sample index _ Hop).
    unfold bindA, liftO, applyOperator. rewrite Hnot.
    destruct (isBoolean v); reflexivity.
  - apply andb_true_iff in Hwf as [[Hop Hl]%andb_true_iff Hr].
    pose proof Hop as Hbinary. unfold isBinaryOperator in Hbinary.
    apply andb_true_iff in Hbinary as [Hoperator Hnot].
    apply negb_true_iff in Hnot.
    rewrite <- !app_assoc, (IHl Hl), bindA_assoc.
    apply bindA_ext. intros l var'.
    rewrite (IHr Hr), bindA_assoc.
    apply bindA_ext. intros r var''.
    cbn [app evaluateRules].
    rewrite (evaluateToken_operator op sample index _ Hoperator).
    unfold bindA, liftO, applyOperator. rewrite Hnot.
    destruct (applyBinary op l r); reflexivity.
Qed.

(** X19: the parser and the evaluator together compute the value of an
    expression.  For every well-formed expression, the infix token
    sequence with every operator application in parentheses compiles to
    the expression's postfix sequence, and evaluating that sequence in
    any context gives the outcome of evaluating the expression itself,
    operands resolved and operators applied from the inside out, left
    operand first. *)
Theorem compile_then_evaluate :
  forall e : Expression,
    wellFormed e = true ->
    infixToPostfix (infix e) [] [] = Returns (postfix e) /\
    forall filterspec filtertype sample index var,
      evaluate {| VariantFilter.spec := filterspec;
                  VariantFilter.tokens := infix e;
                  VariantFilter.rules := postfix e;
                  VariantFilter.type := filtertype |} sample index var
      = value e sample index var.
Proof.
  intros e Hwf.
  pose proof (infixToPostfix_expression e Hwf [] [] []) as Hparse.
  rewrite app_nil_r in Hparse. cbn [app infixToPostfix] in Hparse.
  split; [exact Hparse |].
  intros filterspec filtertype sample index var.
  unfold evaluate. cbn [VariantFilter.rules].
  rewrite <- (app_nil_r (postfix e)) at 1.
  unfold bindA at 1.
  rewrite (evaluateRules_expression e sample index Hwf [] [] var).
  unfold bindA.
  destruct (value e sample index var) as [[v | err | st msg] var'];
    reflexivity.
Qed.

(** The theorem at 1 + (2 * 3): the parenthesised form compiles to
    1 2 3 * +, and its value is 7 on every record. *)
Lemma compile_then_evaluate_witness :
  wellFormed onePlusTwoTimesThree = true /\
  infixToPostfix (infix onePlusTwoTimesThree) [] []
  = Returns (postfix onePlusTwoTimesThree) /\
  forall var,
    value onePlusTwoTimesThree None INDEX_NONE var
    = (Returns (numberOperand 7), var).
Proof.
  split; [reflexivity |].
  split; [exact (proj1 (compile_then_evaluate onePlusTwoTimesThree eq_refl)) |].
  intros var. reflexivity.
Defined.
